(** * nnet3 training: objective functions and objective-function statistics

    A shallow embedding of [nnet3/nnet-training.h] and [nnet3/nnet-training.cc]:
    the statistics record [ObjectiveFunctionInfo] with its three methods, the
    free function [ComputeObjectiveFunction], and the methods of
    [NnetTrainer] that use them ([Train], [ProcessOutputs] and
    [PrintTotalStats]).

    Conventions.
    - [int32] values are integers of [Z]; every arithmetic operation of the
      source on them is followed by [wrap32], the two's-complement wrap-around.
    - [BaseFloat] and [double] are one abstract scalar type [R] with the
      operations the source uses ([BaseFloatOps]).  Nothing is assumed about
      them unless a statement asks for [BaseFloatLaws] (exact arithmetic);
      rounding is outside this development.
    - [KALDI_LOG] appends a line to a log, [KALDI_ERR] and a failing
      [KALDI_ASSERT] stop the computation; both are effects of the monad
      [Kaldi], which keeps the state reached when the computation stopped. *)

From Stdlib Require Import ZArith QArith Qcanon Lia Ring.
From stdpp Require Import gmap strings list fin_maps.

Local Open Scope Z_scope.

(** ** 32-bit integers *)

Definition INT32_MAX : Z := 2 ^ 31 - 1.
Definition INT32_MIN : Z := - 2 ^ 31.

Definition wrap32 (z : Z) : Z := (z + 2 ^ 31) mod 2 ^ 32 - 2 ^ 31.

Definition in_int32 (z : Z) : Prop := INT32_MIN <= z <= INT32_MAX.

(** [a / b] on [int32]: C++ division truncates toward zero. *)
Definition int32_div (a b : Z) : Z := wrap32 (Z.quot a b).
Definition int32_add (a b : Z) : Z := wrap32 (a + b).
Definition int32_sub (a b : Z) : Z := wrap32 (a - b).
Definition int32_mul (a b : Z) : Z := wrap32 (a * b).

(** ** Scalars *)

(** The arithmetic the source performs on [BaseFloat] and [double] values. *)
Class BaseFloatOps (R : Type) : Type := {
  r0 : R;                      (* the literal 0.0 *)
  r1 : R;                      (* the literal 1.0 *)
  radd : R -> R -> R;
  rsub : R -> R -> R;
  rmul : R -> R -> R;
  rdiv : R -> R -> R;
  ropp : R -> R;
  rhalf : R;                   (* the literal 0.5 *)
  of_int : Z -> R;             (* conversion of a MatrixIndexT to BaseFloat *)
  rnez : R -> bool             (* [x != 0.0] *)
}.

(** Exact arithmetic: the scalars form a commutative ring and [!= 0.0] decides
    difference from zero. *)
Class BaseFloatLaws (R : Type) `{BaseFloatOps R} : Prop := {
  R_ring : ring_theory r0 r1 radd rmul rsub ropp (@eq R);
  rnez_spec : forall x : R, rnez x = true <-> x <> r0
}.

(** ** Errors, log lines and the monad of the code *)

Inductive KaldiError : Type :=
  (* nnet-training.cc:137, KALDI_ERR "Nnet versus example output dimension
     (num-classes) mismatch for 'name': <nnet> (nnet) vs. <egs> (egs)" *)
  | ErrDimMismatch (output_name : string) (nnet_dim egs_dim : Z)
  (* nnet-training.cc:97, KALDI_ASSERT(phase == current_phase + 1) *)
  | AssertPhase (phase current_phase : Z)
  (* nnet-training.cc:61, KALDI_ASSERT(node_index >= 0) *)
  | AssertNodeIndex (name : string).

Inductive Result (A : Type) : Type :=
  | Ok (a : A)
  | Fatal (e : KaldiError).
Arguments Ok {A} a.
Arguments Fatal {A} e.

Section Model.

Context {R : Type} {ops : BaseFloatOps R}.

Inductive LogLine : Type :=
  (* "Average objective function for 'name' for minibatches s-e is avg over
     w frames." *)
  | PhaseStatsLine (output_name : string) (start_minibatch end_minibatch : Z)
                   (average frames : R)
  (* "Overall average objective function for 'name'is avg over w frames." *)
  | TotalStatsLine (name : string) (average frames : R).

(** A computation over a mutable object of type [S]: it reads the object and
    the log written so far, and returns a result, the object and the log as
    they are when it returns or stops. *)
Definition Kaldi (S A : Type) : Type :=
  S -> list LogLine -> Result A * S * list LogLine.

Definition ret {S A} (a : A) : Kaldi S A := fun s l => (Ok a, s, l).

Definition bind {S A B} (m : Kaldi S A) (k : A -> Kaldi S B) : Kaldi S B :=
  fun s l =>
    match m s l with
    | (Ok a, s', l') => k a s' l'
    | (Fatal e, s', l') => (Fatal e, s', l')
    end.

Definition get {S} : Kaldi S S := fun s l => (Ok s, s, l).
Definition put {S} (s : S) : Kaldi S unit := fun _ l => (Ok tt, s, l).
Definition KALDI_LOG {S} (line : LogLine) : Kaldi S unit :=
  fun s l => (Ok tt, s, l ++ [line]).
Definition KALDI_ERR {S A} (e : KaldiError) : Kaldi S A :=
  fun s l => (Fatal e, s, l).
Definition KALDI_ASSERT {S} (cond : bool) (e : KaldiError) : Kaldi S unit :=
  if cond then ret tt else KALDI_ERR e.

(** Runs a computation on a part of the state ([get_part] reads it,
    [set_part] writes it back), as a method call on a member does. *)
Definition on_part {S T A} (get_part : S -> T) (set_part : T -> S -> S)
    (m : Kaldi T A) : Kaldi S A :=
  fun s l =>
    match m (get_part s) l with
    | (r, t', l') => (r, set_part t' s, l')
    end.

Local Notation "x <- c1 ;; c2" := (bind c1 (fun x => c2))
  (at level 100, c1 at next level, right associativity).
Local Notation "c1 ;; c2" := (bind c1 (fun _ => c2))
  (at level 100, right associativity).

(** ** Objective-function statistics (nnet-training.h:69-97) *)

Record ObjectiveFunctionInfo : Type := {
  current_phase : Z;
  tot_weight : R;
  tot_objf : R;
  tot_weight_this_phase : R;
  tot_objf_this_phase : R
}.

(** The constructor, nnet-training.h:78-81. *)
Definition ObjectiveFunctionInfo_new : ObjectiveFunctionInfo :=
  {| current_phase := 0;
     tot_weight := r0; tot_objf := r0;
     tot_weight_this_phase := r0; tot_objf_this_phase := r0 |}.

(** nnet-training.cc:109-119. *)
Definition PrintStatsForThisPhase (output_name : string)
    (minibatches_per_phase : Z) : Kaldi ObjectiveFunctionInfo unit :=
  this <- get ;;
  let start_minibatch := int32_mul (current_phase this) minibatches_per_phase in
  let end_minibatch :=
    int32_sub (int32_add start_minibatch minibatches_per_phase) 1 in
  KALDI_LOG (PhaseStatsLine output_name start_minibatch end_minibatch
               (rdiv (tot_objf_this_phase this) (tot_weight_this_phase this))
               (tot_weight_this_phase this)).

(** The body of [if (phase != current_phase)] after the report, lines 99-101. *)
Definition start_phase (phase : Z) (this : ObjectiveFunctionInfo) :
    ObjectiveFunctionInfo :=
  {| current_phase := phase;
     tot_weight := tot_weight this; tot_objf := tot_objf this;
     tot_weight_this_phase := r0; tot_objf_this_phase := r0 |}.

(** The four [+=] of lines 103-106. *)
Definition accumulate (this_minibatch_weight this_minibatch_tot_objf : R)
    (this : ObjectiveFunctionInfo) : ObjectiveFunctionInfo :=
  {| current_phase := current_phase this;
     tot_weight := radd (tot_weight this) this_minibatch_weight;
     tot_objf := radd (tot_objf this) this_minibatch_tot_objf;
     tot_weight_this_phase :=
       radd (tot_weight_this_phase this) this_minibatch_weight;
     tot_objf_this_phase :=
       radd (tot_objf_this_phase this) this_minibatch_tot_objf |}.

(** nnet-training.cc:89-107. *)
Definition UpdateStats (output_name : string)
    (minibatches_per_phase minibatch_counter : Z)
    (this_minibatch_weight this_minibatch_tot_objf : R) :
    Kaldi ObjectiveFunctionInfo unit :=
  let phase := int32_div minibatch_counter minibatches_per_phase in
  this <- get ;;
  (if negb (phase =? current_phase this) then
     KALDI_ASSERT (phase =? int32_add (current_phase this) 1)
                  (AssertPhase phase (current_phase this)) ;;
     PrintStatsForThisPhase output_name minibatches_per_phase ;;
     this <- get ;;
     put (start_phase phase this)
   else ret tt) ;;
  this <- get ;;
  put (accumulate this_minibatch_weight this_minibatch_tot_objf this).

(** nnet-training.cc:121-125. *)
Definition ObjectiveFunctionInfo_PrintTotalStats (name : string) :
    Kaldi ObjectiveFunctionInfo bool :=
  this <- get ;;
  KALDI_LOG (TotalStatsLine name (rdiv (tot_objf this) (tot_weight this))
               (tot_weight this)) ;;
  ret (rnez (tot_weight this)).

(** Feeds one stream's statistics the minibatches numbered [counter],
    [counter + 1], ...: one [UpdateStats] call per element of [stats], which
    lists each minibatch's weight and objective. *)
Fixpoint feed_minibatches (output_name : string) (minibatches_per_phase : Z)
    (counter : Z) (stats : list (R * R)) : Kaldi ObjectiveFunctionInfo unit :=
  match stats with
  | [] => ret tt
  | (w, o) :: rest =>
      UpdateStats output_name minibatches_per_phase counter w o ;;
      feed_minibatches output_name minibatches_per_phase (counter + 1) rest
  end.

(** ** Matrices

    The matrix classes ([Matrix], [CuMatrix], [SparseMatrix],
    [CompressedMatrix], [GeneralMatrix]) belong to the matrix library, which
    is outside the two files embedded here.  A dense matrix is the list of its
    rows; [CuMatrix] is the same data held on another device and is not
    distinguished from [Matrix]. *)

Definition Matrix : Type := list (list R).

Definition NumRows (M : Matrix) : nat := length M.
Definition NumCols (M : Matrix) : nat :=
  match M with [] => 0%nat | row :: _ => length row end.

(** Every row has [NumCols] entries, as in any matrix the library builds. *)
Definition rectangular (M : Matrix) : Prop :=
  Forall (fun row => length row = NumCols M) M.

(** A loop [sum += x] over the entries of [v], starting from 0.0. *)
Definition rsum (v : list R) : R := fold_left radd v r0.

(** Modelled from the spec: [CuMatrixBase::Sum] is missing; it is the
    "sum of all ... entries" of the matrix. *)
Definition Sum (M : Matrix) : R := rsum (concat M).

Definition VecVec (a b : list R) : R := rsum (zip_with rmul a b).

(** Modelled from the spec: [TraceMatMat(A, B, kTrans)] is missing; the trace
    of [A * B^T] is the "sum over all elements of" the element-wise product,
    accumulated row by row. *)
Definition TraceMatMat_kTrans (A B : Matrix) : R := rsum (zip_with VecVec A B).

(** The element-wise product, written [⊙] in the specification. *)
Definition MulElements (A B : Matrix) : Matrix := zip_with (zip_with rmul) A B.

Fixpoint AddVec (alpha : R) (v this : list R) : list R :=
  match this, v with
  | x :: this', y :: v' => radd x (rmul alpha y) :: AddVec alpha v' this'
  | _, _ => this
  end.

(** Modelled from the spec: [CuMatrixBase::AddMat(alpha, M)] is missing; it is
    [*this += alpha * M], entry by entry ("element-wise difference" for
    [alpha = -1.0]); the shape of [*this] does not change. *)
Fixpoint AddMat (alpha : R) (M this : Matrix) : Matrix :=
  match this, M with
  | row :: this', mrow :: M' => AddVec alpha mrow row :: AddMat alpha M' this'
  | _, _ => this
  end.

(** [CuMatrix(rows, cols, kUndefined)]: the entries are whatever the memory
    holds, here one arbitrary value. *)
Context (uninitialized : R).
Definition CuMatrix_new (rows cols : nat) : Matrix :=
  replicate rows (replicate cols uninitialized).

Fixpoint CopyFromVec (v this : list R) : list R :=
  match this, v with
  | _ :: this', y :: v' => y :: CopyFromVec v' this'
  | _, _ => this
  end.

(** [CopyFromMat(M)]: overwrites the entries of [*this] with those of [M]. *)
Fixpoint CopyFromMat (M this : Matrix) : Matrix :=
  match this, M with
  | row :: this', mrow :: M' => CopyFromVec mrow row :: CopyFromMat M' this'
  | _, _ => this
  end.

(** *** Sparse matrices: per row, the dimension and the stored
    (index, value) pairs. *)

Record SparseVector : Type := {
  dim_ : nat;
  pairs_ : list (nat * R)
}.

Definition SparseMatrix : Type := list SparseVector.

Definition SparseMatrix_NumRows (S : SparseMatrix) : nat := length S.
Definition SparseMatrix_NumCols (S : SparseMatrix) : nat :=
  match S with [] => 0%nat | row :: _ => dim_ row end.

(** The canonical form the library keeps a sparse matrix in: every row has
    the matrix's dimension, its indexes are below it and none occurs twice. *)
Definition SparseVector_wf (cols : nat) (v : SparseVector) : Prop :=
  dim_ v = cols /\ NoDup (map fst (pairs_ v)) /\
  Forall (fun p => (fst p < cols)%nat) (pairs_ v).

Definition SparseMatrix_wf (S : SparseMatrix) : Prop :=
  Forall (SparseVector_wf (SparseMatrix_NumCols S)) S.

Definition SparseVector_Sum (v : SparseVector) : R := rsum (map snd (pairs_ v)).

(** Modelled from the spec: [CuSparseMatrix::Sum] is missing; the sum of the
    stored values, row by row. *)
Definition SparseMatrix_Sum (S : SparseMatrix) : R :=
  rsum (map SparseVector_Sum S).

Definition VecSvec (vec : list R) (svec : SparseVector) : R :=
  rsum (map (fun p => rmul (default r0 (vec !! fst p)) (snd p)) (pairs_ svec)).

(** Modelled from the spec: [TraceMatSmat(A, B, kTrans)] is missing; the
    products of the stored values of [B] with the entries of [A] at their
    positions, summed row by row. *)
Definition TraceMatSmat_kTrans (A : Matrix) (B : SparseMatrix) : R :=
  rsum (zip_with VecSvec A B).

(** [SparseVector::CopyElementsToVec]: zero the vector, then store each pair. *)
Definition CopyElementsToVec (svec : SparseVector) (vec : list R) : list R :=
  fold_left (fun v p => <[fst p := snd p]> v) (pairs_ svec)
            (replicate (length vec) r0).

(** Modelled from the spec: [CuSparseMatrix::CopyToMat] is missing; the sparse
    matrix "decoded/converted" to the dense representation, row [i] of the
    sparse matrix into row [i] of the target. *)
Fixpoint SparseMatrix_CopyToMat (S : SparseMatrix) (M : Matrix) : Matrix :=
  match M, S with
  | row :: M', svec :: S' =>
      CopyElementsToVec svec row :: SparseMatrix_CopyToMat S' M'
  | _, _ => M
  end.

(** *** The three encodings of a supervision matrix *)

(** The compressed encoding and its decoder are the matrix library's; they
    are taken as given. *)
Context {CompressedMatrix : Type} (Uncompress : CompressedMatrix -> Matrix).

Inductive GeneralMatrix : Type :=
  | kFullMatrix (mat_ : Matrix)
  | kCompressedMatrix (cmat_ : CompressedMatrix)
  | kSparseMatrix (smat_ : SparseMatrix).

Definition GeneralMatrix_NumRows (G : GeneralMatrix) : nat :=
  match G with
  | kFullMatrix mat => NumRows mat
  | kCompressedMatrix cmat => NumRows (Uncompress cmat)
  | kSparseMatrix smat => SparseMatrix_NumRows smat
  end.

Definition GeneralMatrix_NumCols (G : GeneralMatrix) : nat :=
  match G with
  | kFullMatrix mat => NumCols mat
  | kCompressedMatrix cmat => NumCols (Uncompress cmat)
  | kSparseMatrix smat => SparseMatrix_NumCols smat
  end.

(** Modelled from the spec: [GeneralMatrix::GetMatrix] is missing; it outputs
    the contents as a full matrix, "the same logical real-valued matrix"
    whatever the encoding. *)
Definition GetMatrix (G : GeneralMatrix) : Matrix :=
  match G with
  | kFullMatrix mat => mat
  | kCompressedMatrix cmat => Uncompress cmat
  | kSparseMatrix smat =>
      SparseMatrix_CopyToMat smat
        (CuMatrix_new (SparseMatrix_NumRows smat) (SparseMatrix_NumCols smat))
  end.

(** Modelled from the spec: [CuMatrixBase::CopyFromGeneralMat] is missing; it
    copies the contents of the general matrix into [*this]. *)
Definition CopyFromGeneralMat (src : GeneralMatrix) (this : Matrix) : Matrix :=
  match src with
  | kFullMatrix mat => CopyFromMat mat this
  | kCompressedMatrix cmat => CopyFromMat (Uncompress cmat) this
  | kSparseMatrix smat => SparseMatrix_CopyToMat smat this
  end.

Definition GeneralMatrix_wf (G : GeneralMatrix) : Prop :=
  match G with
  | kFullMatrix mat => rectangular mat
  | kCompressedMatrix cmat => rectangular (Uncompress cmat)
  | kSparseMatrix smat => SparseMatrix_wf smat
  end.

(** ** The objective function (nnet-training.cc:127-202) *)

Inductive ObjectiveType : Type := kLinear | kQuadratic.

(** The part of [NnetComputer] the objective function uses: the outputs of
    the forward pass by name, and the output derivatives accepted so far. *)
Record NnetComputer : Type := {
  outputs : string -> Matrix;
  output_derivs : list (string * Matrix)
}.

Definition GetOutput (output_name : string) : Kaldi NnetComputer Matrix :=
  computer <- get ;; ret (outputs computer output_name).

Definition AcceptOutputDeriv (output_name : string) (output_deriv : Matrix) :
    Kaldi NnetComputer unit :=
  computer <- get ;;
  put {| outputs := outputs computer;
         output_derivs := output_derivs computer ++ [(output_name, output_deriv)] |}.

(** Returns the pair [( *tot_weight, *tot_objf )]. *)
Definition ComputeObjectiveFunction (supervision : GeneralMatrix)
    (objective_type : ObjectiveType) (output_name : string)
    (supply_deriv : bool) : Kaldi NnetComputer (R * R) :=
  output <- GetOutput output_name ;;
  (if negb (NumCols output =? GeneralMatrix_NumCols supervision)%nat then
     KALDI_ERR (ErrDimMismatch output_name (Z.of_nat (NumCols output))
                  (Z.of_nat (GeneralMatrix_NumCols supervision)))
   else ret tt) ;;
  match objective_type with
  | kLinear =>
      match supervision with
      | kSparseMatrix post =>
          let cu_post := post in
          let tot_weight := SparseMatrix_Sum cu_post in
          let tot_objf := TraceMatSmat_kTrans output cu_post in
          (if supply_deriv then
             let output_deriv :=
               CuMatrix_new (NumRows output) (NumCols output) in
             let output_deriv := SparseMatrix_CopyToMat cu_post output_deriv in
             AcceptOutputDeriv output_name output_deriv
           else ret tt) ;;
          ret (tot_weight, tot_objf)
      | kFullMatrix mat =>
          let cu_post := mat in
          let tot_weight := Sum cu_post in
          let tot_objf := TraceMatMat_kTrans output cu_post in
          (if supply_deriv then AcceptOutputDeriv output_name cu_post
           else ret tt) ;;
          ret (tot_weight, tot_objf)
      | kCompressedMatrix _ =>
          let post := GetMatrix supervision in
          let cu_post := post in
          let tot_weight := Sum cu_post in
          let tot_objf := TraceMatMat_kTrans output cu_post in
          (if supply_deriv then AcceptOutputDeriv output_name cu_post
           else ret tt) ;;
          ret (tot_weight, tot_objf)
      end
  | kQuadratic =>
      let diff := CuMatrix_new (GeneralMatrix_NumRows supervision)
                               (GeneralMatrix_NumCols supervision) in
      let diff := CopyFromGeneralMat supervision diff in
      let diff := AddMat (ropp r1) output diff in
      let tot_weight := of_int (Z.of_nat (NumRows diff)) in
      let tot_objf := rmul (ropp rhalf) (TraceMatMat_kTrans diff diff) in
      (if supply_deriv then AcceptOutputDeriv output_name diff else ret tt) ;;
      ret (tot_weight, tot_objf)
  end.

(** ** The trainer (nnet-training.h:112-136, nnet-training.cc:54-87) *)

Record NnetIo : Type := {
  name : string;
  features : GeneralMatrix
}.

Record NnetExample : Type := {
  io : list NnetIo
}.

(** The part of [Nnet] the trainer asks for; [objective_type i] stands for
    [GetNode(i).u.objective_type]. *)
Record Nnet : Type := {
  GetNodeIndex : string -> Z;
  IsOutputNode : Z -> bool;
  objective_type : Z -> ObjectiveType
}.

Record NnetTrainerOptions : Type := {
  zero_component_stats : bool;
  store_component_stats : bool;
  print_interval : Z;
  debug_computation : bool
}.

(** The default options, nnet-training.h:39-43. *)
Definition NnetTrainerOptions_new : NnetTrainerOptions :=
  {| zero_component_stats := true; store_component_stats := false;
     print_interval := 100; debug_computation := false |}.

Record NnetTrainer : Type := {
  config_ : NnetTrainerOptions;
  nnet_ : Nnet;
  num_minibatches_processed_ : Z;
  objf_info_ : gmap string ObjectiveFunctionInfo
}.

(** The constructor, nnet-training.cc:26-34 (without the zeroing of the
    component statistics of the network). *)
Definition NnetTrainer_new (config : NnetTrainerOptions) (nnet : Nnet) :
    NnetTrainer :=
  {| config_ := config; nnet_ := nnet;
     num_minibatches_processed_ := 0; objf_info_ := ∅ |}.

(** [objf_info_[output_name]]: the entry of the map, a freshly constructed
    one when the name is new. *)
Definition objf_info_at (output_name : string) (this : NnetTrainer) :
    ObjectiveFunctionInfo :=
  default ObjectiveFunctionInfo_new (objf_info_ this !! output_name).

Definition set_objf_info_at (output_name : string)
    (info : ObjectiveFunctionInfo) (this : NnetTrainer) : NnetTrainer :=
  {| config_ := config_ this; nnet_ := nnet_ this;
     num_minibatches_processed_ := num_minibatches_processed_ this;
     objf_info_ := <[output_name := info]> (objf_info_ this) |}.

Definition set_num_minibatches_processed (n : Z) (this : NnetTrainer) :
    NnetTrainer :=
  {| config_ := config_ this; nnet_ := nnet_ this;
     num_minibatches_processed_ := n;
     objf_info_ := objf_info_ this |}.

(** [num_minibatches_processed_++]: returns the old value. *)
Definition post_increment_num_minibatches_processed : Kaldi NnetTrainer Z :=
  this <- get ;;
  put (set_num_minibatches_processed
         (int32_add (num_minibatches_processed_ this) 1) this) ;;
  ret (num_minibatches_processed_ this).

Definition on_trainer {A} (m : Kaldi NnetTrainer A) :
    Kaldi (NnetTrainer * NnetComputer) A :=
  on_part fst (fun t st => (t, snd st)) m.

Definition on_computer {A} (m : Kaldi NnetComputer A) :
    Kaldi (NnetTrainer * NnetComputer) A :=
  on_part snd (fun c st => (fst st, c)) m.

(** The body of the loop of [ProcessOutputs], lines 59-72. *)
Definition ProcessOutputs_body (io : NnetIo) :
    Kaldi (NnetTrainer * NnetComputer) unit :=
  st <- get ;;
  let this := fst st in
  let node_index := GetNodeIndex (nnet_ this) (name io) in
  KALDI_ASSERT (0 <=? node_index) (AssertNodeIndex (name io)) ;;
  if IsOutputNode (nnet_ this) node_index then
    let obj_type := objective_type (nnet_ this) node_index in
    let supply_deriv := true in
    tot <- on_computer (ComputeObjectiveFunction (features io) obj_type
                          (name io) supply_deriv) ;;
    counter <- on_trainer post_increment_num_minibatches_processed ;;
    on_trainer
      (on_part (objf_info_at (name io)) (set_objf_info_at (name io))
         (UpdateStats (name io) (print_interval (config_ this)) counter
            (fst tot) (snd tot)))
  else ret tt.

Fixpoint ProcessOutputs_loop (ios : list NnetIo) :
    Kaldi (NnetTrainer * NnetComputer) unit :=
  match ios with
  | [] => ret tt
  | io :: rest => ProcessOutputs_body io ;; ProcessOutputs_loop rest
  end.

(** nnet-training.cc:54-74. *)
Definition ProcessOutputs (eg : NnetExample) :
    Kaldi (NnetTrainer * NnetComputer) unit :=
  ProcessOutputs_loop (io eg).

(** The loop of [NnetTrainer::PrintTotalStats], lines 81-85:
    [ans = ans || info.PrintTotalStats(name)], where [||] evaluates its right
    operand only when the left one is false. *)
Fixpoint PrintTotalStats_loop (entries : list (string * ObjectiveFunctionInfo))
    (ans : bool) : Kaldi NnetTrainer bool :=
  match entries with
  | [] => ret ans
  | (name, info) :: rest =>
      ans <- (if ans then ret true
              else on_part (fun _ => info) (fun _ this => this)
                     (ObjectiveFunctionInfo_PrintTotalStats name)) ;;
      PrintTotalStats_loop rest ans
  end.

(** nnet-training.cc:76-87; the map is visited in the order [map_to_list]
    lists it. *)
Definition NnetTrainer_PrintTotalStats : Kaldi NnetTrainer bool :=
  this <- get ;;
  PrintTotalStats_loop (map_to_list (objf_info_ this)) false.

(** The number of example streams bound to an output node of the network. *)
Definition num_output_streams (nnet : Nnet) (ios : list NnetIo) : nat :=
  length (filter (fun io => IsOutputNode nnet (GetNodeIndex nnet (name io)) = true) ios).

(** ** What the specification calls a phase

    With phase length [L], phase [p] consists of the minibatches numbered
    [p * L], ..., [p * L + L - 1]. *)

Definition phase_chunk (L p : nat) (stats : list (R * R)) : list (R * R) :=
  take L (drop (p * L) stats).

(** The report the specification asks for phase [p] of the run [stats]: the
    range of the phase, and the sum of the objectives over the phase divided by
    the sum of the weights over the phase. *)
Definition phase_report (output_name : string) (L : nat)
    (stats : list (R * R)) (p : nat) : LogLine :=
  PhaseStatsLine output_name (Z.of_nat (p * L)) (Z.of_nat (p * L + L) - 1)
    (rdiv (rsum (map snd (phase_chunk L p stats)))
          (rsum (map fst (phase_chunk L p stats))))
    (rsum (map fst (phase_chunk L p stats))).

(** * Properties *)

(** ** 32-bit arithmetic *)

Lemma wrap32_id z : in_int32 z -> wrap32 z = z.
Proof.
  unfold in_int32, INT32_MIN, INT32_MAX, wrap32. intros Hz.
  rewrite Z.mod_small; lia.
Qed.

Lemma quot_in_int32 c L : in_int32 c -> 0 < L -> in_int32 (Z.quot c L).
Proof.
  unfold in_int32, INT32_MIN, INT32_MAX. intros Hc HL.
  destruct (Z_le_gt_dec 0 c) as [Hpos|Hneg].
  - pose proof (Z.quot_pos c L Hpos HL).
    assert (Z.quot c L <= c) by (apply Z.quot_le_upper_bound; nia).
    lia.
  - assert (Hq : Z.quot c L = - Z.quot (- c) L).
    { rewrite Z.quot_opp_l by lia. lia. }
    assert (0 <= Z.quot (- c) L) by (apply Z.quot_pos; lia).
    assert (Z.quot (- c) L <= - c) by (apply Z.quot_le_upper_bound; nia).
    lia.
Qed.

Lemma int32_div_quot c L : in_int32 c -> 0 < L -> int32_div c L = Z.quot c L.
Proof. intros. apply wrap32_id. by apply quot_in_int32. Qed.

Lemma int32_div_of_nat (m L : nat) :
  (0 < L)%nat -> Z.of_nat m <= INT32_MAX ->
  int32_div (Z.of_nat m) (Z.of_nat L) = Z.of_nat (m / L).
Proof.
  intros HL Hm. rewrite int32_div_quot.
  - rewrite Z.quot_div_nonneg by lia. by rewrite Nat2Z.inj_div.
  - unfold in_int32, INT32_MIN. lia.
  - lia.
Qed.

(** ** One call of [UpdateStats], by the comparison it makes *)

Lemma UpdateStats_same_phase output_name L c w o this log :
  int32_div c L = current_phase this ->
  UpdateStats output_name L c w o this log = (Ok tt, accumulate w o this, log).
Proof.
  intros Hp. unfold UpdateStats, bind, get, put.
  rewrite Hp, Z.eqb_refl. reflexivity.
Qed.

Lemma UpdateStats_next_phase output_name L c w o this log :
  int32_div c L <> current_phase this ->
  int32_div c L = int32_add (current_phase this) 1 ->
  UpdateStats output_name L c w o this log =
    (Ok tt,
     accumulate w o (start_phase (int32_div c L) this),
     log ++ [PhaseStatsLine output_name
               (int32_mul (current_phase this) L)
               (int32_sub (int32_add (int32_mul (current_phase this) L) L) 1)
               (rdiv (tot_objf_this_phase this) (tot_weight_this_phase this))
               (tot_weight_this_phase this)]).
Proof.
  intros Hne Hnext. unfold UpdateStats, bind, get, put.
  apply Z.eqb_neq in Hne. rewrite Hne. cbn [negb].
  rewrite <- Hnext, Z.eqb_refl. reflexivity.
Qed.

Lemma UpdateStats_other_phase output_name L c w o this log :
  int32_div c L <> current_phase this ->
  int32_div c L <> int32_add (current_phase this) 1 ->
  UpdateStats output_name L c w o this log =
    (Fatal (AssertPhase (int32_div c L) (current_phase this)), this, log).
Proof.
  intros Hne Hnext. unfold UpdateStats, bind, get, put.
  apply Z.eqb_neq in Hne. rewrite Hne. cbn [negb].
  apply Z.eqb_neq in Hnext. rewrite Hnext. reflexivity.
Qed.

(** ** A run of one stream's statistics over minibatches 0, 1, 2, ... *)

Lemma rsum_snoc (v : list R) (x : R) : rsum (v ++ [x]) = radd (rsum v) x.
Proof. unfold rsum. by rewrite fold_left_app. Qed.

Lemma feed_minibatches_snoc output_name L c stats w o this log :
  feed_minibatches output_name L c (stats ++ [(w, o)]) this log =
    match feed_minibatches output_name L c stats this log with
    | (Ok _, this', log') =>
        UpdateStats output_name L (c + Z.of_nat (length stats)) w o this' log'
    | (Fatal e, this', log') => (Fatal e, this', log')
    end.
Proof.
  revert c this log. induction stats as [|[w' o'] stats IH]; intros c this log.
  - cbn [feed_minibatches app length]. unfold bind, ret.
    rewrite Z.add_0_r.
    by destruct (UpdateStats output_name L c w o this log) as [[[[]|e] s] l].
  - cbn [feed_minibatches app length]. unfold bind.
    destruct (UpdateStats output_name L c w' o' this log) as [[[[]|e] s] l];
      [|done].
    rewrite IH. by replace (c + 1 + Z.of_nat (length stats))
      with (c + Z.of_nat (S (length stats))) by lia.
Qed.

(** The state of the statistics after the run [stats] of minibatches
    0, ..., [length stats - 1]. *)
Definition info_after (L : nat) (stats : list (R * R)) : ObjectiveFunctionInfo :=
  let p := ((length stats - 1) / L)%nat in
  {| current_phase := Z.of_nat p;
     tot_weight := rsum (map fst stats);
     tot_objf := rsum (map snd stats);
     tot_weight_this_phase := rsum (map fst (drop (p * L) stats));
     tot_objf_this_phase := rsum (map snd (drop (p * L) stats)) |}.

Lemma phase_chunk_snoc L p stats x :
  (p * L + L <= length stats)%nat ->
  phase_chunk L p (stats ++ [x]) = phase_chunk L p stats.
Proof.
  intros Hlen. unfold phase_chunk.
  rewrite drop_app_le by lia. rewrite take_app_le; [done|].
  rewrite length_drop. lia.
Qed.

Lemma phase_reports_snoc output_name L q stats x :
  (q * L <= length stats)%nat ->
  map (phase_report output_name L (stats ++ [x])) (seq 0 q) =
  map (phase_report output_name L stats) (seq 0 q).
Proof.
  intros Hq. apply map_ext_in. intros p Hp. apply in_seq in Hp.
  unfold phase_report. rewrite phase_chunk_snoc; [done|]. nia.
Qed.

(** Where minibatch [m] falls: in the phase of minibatch [m - 1], or at the
    start of the next one. *)
Lemma next_minibatch_phase (m L : nat) :
  (0 < L)%nat -> (0 < m)%nat ->
  ((m / L = (m - 1) / L)%nat /\ ((m - 1) / L * L <= m)%nat) \/
  ((m / L = (m - 1) / L + 1)%nat /\ (m = (m - 1) / L * L + L)%nat).
Proof.
  intros HL Hm.
  pose proof (Nat.div_mod_eq (m - 1) L) as Hdm.
  pose proof (Nat.mod_upper_bound (m - 1) L ltac:(lia)) as Hr.
  set (q := ((m - 1) / L)%nat) in *. set (r := ((m - 1) mod L)%nat) in *.
  destruct (decide (r + 1 < L)%nat) as [Hlt|Hge].
  - left. split; [|nia].
    symmetry. apply (Nat.div_unique m L q (r + 1)); [lia|nia].
  - right. assert (r + 1 = L)%nat by lia. split; [|nia].
    symmetry. apply (Nat.div_unique m L (q + 1) 0); [lia|nia].
Qed.

Lemma feed_minibatches_from_start output_name (L : nat) stats log :
  (0 < L)%nat -> Z.of_nat L <= INT32_MAX ->
  Z.of_nat (length stats) <= 2 ^ 31 ->
  feed_minibatches output_name (Z.of_nat L) 0 stats ObjectiveFunctionInfo_new log =
    (Ok tt, info_after L stats,
     log ++ map (phase_report output_name L stats)
                (seq 0 ((length stats - 1) / L))).
Proof.
  intros HL HLmax. induction stats as [|[w o] stats IH] using rev_ind; intros Hlen.
  - cbn. unfold ret, info_after, ObjectiveFunctionInfo_new. cbn.
    rewrite Nat.Div0.div_0_l. cbn. by rewrite app_nil_r.
  - rewrite length_app in Hlen. cbn [length] in Hlen.
    rewrite feed_minibatches_snoc, IH by lia. clear IH.
    rewrite Z.add_0_l. unfold info_after at 2. rewrite length_app. cbn [length].
    replace (length stats + 1 - 1)%nat with (length stats) by lia.
    unfold info_after at 1.
    remember (length stats) as m eqn:Hmdef.
    assert (Hm : Z.of_nat m <= INT32_MAX) by (unfold INT32_MAX; lia).
    pose proof (int32_div_of_nat m L HL Hm) as Hdiv.
    destruct (decide (m = 0)%nat) as [Hz|Hnz].
    { (* the first minibatch *)
      subst m. apply nil_length_inv in Hz. subst stats.
      rewrite UpdateStats_same_phase.
      - unfold accumulate. cbn [length Nat.sub app].
        rewrite !Nat.Div0.div_0_l. reflexivity.
      - rewrite Hdiv. cbn. by rewrite Nat.Div0.div_0_l. }
    destruct (next_minibatch_phase m L HL ltac:(lia)) as [[Hq Hle]|[Hq Heq]];
      remember ((m - 1) / L)%nat as q eqn:Hqdef; rewrite Hq.
    + (* same phase *)
      rewrite UpdateStats_same_phase by (cbn; lia).
      rewrite phase_reports_snoc by lia.
      f_equal. f_equal. unfold accumulate. cbn.
      rewrite drop_app_le by lia.
      rewrite !map_app. cbn [map fst snd]. by rewrite !rsum_snoc.
    + (* minibatch [m] starts phase [q + 1] *)
      assert (Hbound : Z.of_nat q * Z.of_nat L + Z.of_nat L <= INT32_MAX) by nia.
      rewrite UpdateStats_next_phase; cbn [current_phase].
      2:{ lia. }
      2:{ unfold int32_add. rewrite wrap32_id; [lia|].
          unfold in_int32, INT32_MIN. nia. }
      rewrite Hdiv, Hq.
      assert (Hc : phase_chunk L q (stats ++ [(w, o)]) = drop (q * L) stats).
      { unfold phase_chunk. rewrite drop_app_le by lia.
        rewrite take_app_le by (rewrite length_drop; lia).
        apply take_ge. rewrite length_drop. lia. }
      f_equal; [f_equal|].
      * unfold accumulate, start_phase. cbn.
        replace ((q + 1) * L)%nat with (length stats) by nia.
        rewrite drop_app_length. rewrite !map_app. cbn [map fst snd].
        by rewrite !rsum_snoc.
      * rewrite <- app_assoc. f_equal.
        rewrite Nat.add_1_r, seq_S, map_app. cbn [map Nat.add].
        rewrite phase_reports_snoc by lia. f_equal.
        unfold phase_report. rewrite Hc. cbn.
        unfold int32_sub, int32_add, int32_mul.
        rewrite (wrap32_id (Z.of_nat q * Z.of_nat L))
          by (unfold in_int32, INT32_MIN; nia).
        rewrite (wrap32_id (Z.of_nat q * Z.of_nat L + Z.of_nat L))
          by (unfold in_int32, INT32_MIN; nia).
        rewrite wrap32_id by (unfold in_int32, INT32_MIN; nia).
        by rewrite Nat2Z.inj_add, Nat2Z.inj_mul.
Qed.

(** C3.  With phase length [L] and minibatch counters within [int32]:
    (1) a call whose counter has [floor(counter / L)] equal to the current
    phase writes no report and only accumulates; (2) a call whose phase is
    the current phase [p] plus one first writes the report of phase [p], with
    the range [p * L] to [p * L + L - 1] and the average of the sub-totals as
    they were before the call, and only then starts the new phase from zero
    and accumulates the call into it; (3) fed the minibatches 0, 1, 2, ... in
    turn, a fresh record never fails, and the reports it writes are exactly
    those of the completed phases, each with the sum of the objectives of that
    phase divided by the sum of its weights. *)
Theorem UpdateStats_phase_reports (output_name : string) (L : nat) :
  (0 < L)%nat -> Z.of_nat L <= INT32_MAX ->
  (forall this c w o log,
     0 <= c <= INT32_MAX -> c / Z.of_nat L = current_phase this ->
     UpdateStats output_name (Z.of_nat L) c w o this log =
       (Ok tt, accumulate w o this, log)) /\
  (forall this c w o log,
     0 <= c <= INT32_MAX -> c / Z.of_nat L = current_phase this + 1 ->
     UpdateStats output_name (Z.of_nat L) c w o this log =
       (Ok tt,
        accumulate w o (start_phase (current_phase this + 1) this),
        log ++ [PhaseStatsLine output_name
                  (current_phase this * Z.of_nat L)
                  (current_phase this * Z.of_nat L + Z.of_nat L - 1)
                  (rdiv (tot_objf_this_phase this) (tot_weight_this_phase this))
                  (tot_weight_this_phase this)])) /\
  (forall stats log,
     Z.of_nat (length stats) <= 2 ^ 31 ->
     feed_minibatches output_name (Z.of_nat L) 0 stats
       ObjectiveFunctionInfo_new log =
       (Ok tt, info_after L stats,
        log ++ map (phase_report output_name L stats)
                   (seq 0 ((length stats - 1) / L)))).
Proof.
  intros HL HLmax.
  assert (Hdiv : forall c, 0 <= c <= INT32_MAX ->
            int32_div c (Z.of_nat L) = c / Z.of_nat L).
  { intros c Hc. rewrite int32_div_quot.
    - apply Z.quot_div_nonneg; lia.
    - unfold in_int32, INT32_MIN. lia.
    - lia. }
  split; [|split].
  - intros this c w o log Hc Hp.
    apply UpdateStats_same_phase. by rewrite Hdiv.
  - intros this c w o log Hc Hp.
    assert (Hmul : (current_phase this + 1) * Z.of_nat L <= c).
    { rewrite <- Hp, Z.mul_comm. apply Z.mul_div_le. lia. }
    assert (Hp0 : 0 <= current_phase this + 1).
    { rewrite <- Hp. apply Z.div_pos; lia. }
    unfold INT32_MAX in *.
    rewrite UpdateStats_next_phase.
    + rewrite Hdiv, Hp by (unfold INT32_MAX; lia).
      unfold int32_sub, int32_add, int32_mul.
      rewrite (wrap32_id (current_phase this * Z.of_nat L))
        by (unfold in_int32, INT32_MIN, INT32_MAX; nia).
      rewrite (wrap32_id (current_phase this * Z.of_nat L + Z.of_nat L))
        by (unfold in_int32, INT32_MIN, INT32_MAX; nia).
      rewrite wrap32_id by (unfold in_int32, INT32_MIN, INT32_MAX; nia).
      reflexivity.
    + rewrite Hdiv by (unfold INT32_MAX; lia). lia.
    + rewrite Hdiv, Hp by (unfold INT32_MAX; lia).
      unfold int32_add. rewrite wrap32_id; [done|].
      unfold in_int32, INT32_MIN, INT32_MAX.
      assert (c / Z.of_nat L <= c) by (apply Z.div_le_upper_bound; nia).
      lia.
  - intros stats log Hlen. by apply feed_minibatches_from_start.
Qed.

(** C7.  When the phase computed from the counter is neither the current
    phase nor the current phase plus one (it jumps by two or more, or goes
    back), [UpdateStats] stops on its assertion; the statistics and the log
    are then as they were before the call: no report, no total updated. *)
Theorem UpdateStats_fatal_on_phase_jump output_name L c w o this log :
  0 < L -> in_int32 c -> in_int32 (current_phase this) ->
  (0 <= c \/ current_phase this < INT32_MAX) ->
  Z.quot c L <> current_phase this ->
  Z.quot c L <> current_phase this + 1 ->
  UpdateStats output_name L c w o this log =
    (Fatal (AssertPhase (Z.quot c L) (current_phase this)), this, log).
Proof.
  intros HL Hc Hcur Hedge Hne Hnext.
  rewrite <- (int32_div_quot c L Hc HL).
  apply UpdateStats_other_phase; rewrite int32_div_quot by done; [done|].
  unfold int32_add.
  destruct (decide (current_phase this < INT32_MAX)) as [Hlt|Hmax].
  - rewrite wrap32_id; [done|]. unfold in_int32 in *. lia.
  - destruct Hedge as [Hpos|]; [|done].
    assert (Hcm : current_phase this = INT32_MAX) by (unfold in_int32 in *; lia).
    rewrite Hcm. change (wrap32 (INT32_MAX + 1)) with INT32_MIN.
    pose proof (Z.quot_pos c L Hpos ltac:(lia)). unfold INT32_MIN. lia.
Qed.

(** ** The dimension check of [ComputeObjectiveFunction] *)

Lemma ComputeObjectiveFunction_dim_mismatch supervision ty output_name
    supply_deriv computer log :
  NumCols (outputs computer output_name) <> GeneralMatrix_NumCols supervision ->
  ComputeObjectiveFunction supervision ty output_name supply_deriv computer log =
    (Fatal (ErrDimMismatch output_name
              (Z.of_nat (NumCols (outputs computer output_name)))
              (Z.of_nat (GeneralMatrix_NumCols supervision))),
     computer, log).
Proof.
  intros Hne. unfold ComputeObjectiveFunction, GetOutput, bind, get, ret.
  apply Nat.eqb_neq in Hne. rewrite Hne. reflexivity.
Qed.

Lemma ComputeObjectiveFunction_dim_match supervision ty output_name
    supply_deriv computer log :
  NumCols (outputs computer output_name) = GeneralMatrix_NumCols supervision ->
  exists tot computer',
    ComputeObjectiveFunction supervision ty output_name supply_deriv computer log =
      (Ok tot, computer', log).
Proof.
  intros Heq. unfold ComputeObjectiveFunction, GetOutput, bind, get, ret.
  rewrite Heq, Nat.eqb_refl. cbn [negb].
  destruct ty; [destruct supervision|]; destruct supply_deriv; cbn; eauto.
Qed.

(** C8.  [ComputeObjectiveFunction] stops with its dimension error, which
    carries the output name and both column counts, exactly when the column
    count of the output differs from that of the supervision, and it has
    changed nothing by then; when the column counts agree it returns, whatever
    the row counts of the two matrices are. *)
Theorem ComputeObjectiveFunction_checks_columns_only supervision ty
    output_name supply_deriv computer log :
  let nnet_dim := NumCols (outputs computer output_name) in
  let egs_dim := GeneralMatrix_NumCols supervision in
  (nnet_dim <> egs_dim ->
   ComputeObjectiveFunction supervision ty output_name supply_deriv computer log =
     (Fatal (ErrDimMismatch output_name (Z.of_nat nnet_dim) (Z.of_nat egs_dim)),
      computer, log)) /\
  (nnet_dim = egs_dim ->
   exists tot computer',
     ComputeObjectiveFunction supervision ty output_name supply_deriv computer log =
       (Ok tot, computer', log)).
Proof.
  split.
  - apply ComputeObjectiveFunction_dim_mismatch.
  - apply ComputeObjectiveFunction_dim_match.
Qed.

(** ** The final report *)

Definition summary_line (entry : string * ObjectiveFunctionInfo) : LogLine :=
  TotalStatsLine (fst entry)
    (rdiv (tot_objf (snd entry)) (tot_weight (snd entry)))
    (tot_weight (snd entry)).

(** The entries up to and including the first one whose weight passes the
    test [!= 0.0]. *)
Fixpoint up_to_first_nonzero (entries : list (string * ObjectiveFunctionInfo)) :
    list (string * ObjectiveFunctionInfo) :=
  match entries with
  | [] => []
  | entry :: rest =>
      if rnez (tot_weight (snd entry)) then [entry]
      else entry :: up_to_first_nonzero rest
  end.

Lemma ObjectiveFunctionInfo_PrintTotalStats_eq name this log :
  ObjectiveFunctionInfo_PrintTotalStats name this log =
    (Ok (rnez (tot_weight this)), this, log ++ [summary_line (name, this)]).
Proof. reflexivity. Qed.

Lemma PrintTotalStats_loop_true entries (trainer : NnetTrainer) log :
  PrintTotalStats_loop entries true trainer log = (Ok true, trainer, log).
Proof.
  induction entries as [|[name info] rest IH]; [done|].
  cbn [PrintTotalStats_loop]. unfold bind, ret at 1. apply IH.
Qed.

Lemma PrintTotalStats_loop_false entries (trainer : NnetTrainer) log :
  PrintTotalStats_loop entries false trainer log =
    (Ok (existsb (fun entry => rnez (tot_weight (snd entry))) entries), trainer,
     log ++ map summary_line (up_to_first_nonzero entries)).
Proof.
  revert log. induction entries as [|[name info] rest IH]; intros log.
  - cbn. unfold ret. by rewrite app_nil_r.
  - cbn [PrintTotalStats_loop existsb up_to_first_nonzero snd].
    unfold bind, on_part. rewrite ObjectiveFunctionInfo_PrintTotalStats_eq.
    destruct (rnez (tot_weight info)).
    + by rewrite PrintTotalStats_loop_true.
    + rewrite IH. cbn [orb map]. by rewrite <- app_assoc.
Qed.

Lemma NnetTrainer_PrintTotalStats_eq (trainer : NnetTrainer) log :
  NnetTrainer_PrintTotalStats trainer log =
    (Ok (existsb (fun entry => rnez (tot_weight (snd entry)))
                 (map_to_list (objf_info_ trainer))),
     trainer,
     log ++ map summary_line
              (up_to_first_nonzero (map_to_list (objf_info_ trainer)))).
Proof.
  unfold NnetTrainer_PrintTotalStats, bind, get.
  apply PrintTotalStats_loop_false.
Qed.

(** C2, as the code has it.  When every stream has a weight that passes
    [!= 0.0], [NnetTrainer::PrintTotalStats] writes exactly one summary line,
    however many streams the map holds: [ans || ...] no longer calls
    [info.PrintTotalStats(name)] once [ans] is true.  With two or more such
    streams the lines are fewer than the streams. *)
Theorem NnetTrainer_PrintTotalStats_stops_at_first_nonzero
    (trainer : NnetTrainer) log :
  map_Forall (fun _ info => rnez (tot_weight info) = true) (objf_info_ trainer) ->
  (2 <= size (objf_info_ trainer))%nat ->
  exists line,
    NnetTrainer_PrintTotalStats trainer log = (Ok true, trainer, log ++ [line]).
Proof.
  intros Hall Hsize. rewrite NnetTrainer_PrintTotalStats_eq.
  rewrite <- length_map_to_list in Hsize.
  apply map_Forall_to_list in Hall.
  destruct (map_to_list (objf_info_ trainer)) as [|[name info] rest]; cbn in Hsize;
    [lia|].
  apply Forall_cons in Hall as [Hnz _]. cbn in Hnz.
  cbn. rewrite Hnz. cbn. eauto.
Qed.

(** ** The loop of [ProcessOutputs] *)

Arguments UpdateStats : simpl never.
Arguments ComputeObjectiveFunction : simpl never.

Lemma ProcessOutputs_body_not_output io trainer computer log :
  0 <= GetNodeIndex (nnet_ trainer) (name io) ->
  IsOutputNode (nnet_ trainer) (GetNodeIndex (nnet_ trainer) (name io)) = false ->
  ProcessOutputs_body io (trainer, computer) log = (Ok tt, (trainer, computer), log).
Proof.
  intros Hidx Hout. unfold ProcessOutputs_body, bind, get, KALDI_ASSERT. cbn.
  apply Z.leb_le in Hidx. rewrite Hidx, Hout. reflexivity.
Qed.

(** For a stream bound to an output node, once the objective is computed:
    the counter is read and incremented, and [UpdateStats] runs on the
    stream's entry with the value read. *)
Lemma ProcessOutputs_body_output io trainer computer log tot computer' log1 :
  0 <= GetNodeIndex (nnet_ trainer) (name io) ->
  IsOutputNode (nnet_ trainer) (GetNodeIndex (nnet_ trainer) (name io)) = true ->
  ComputeObjectiveFunction (features io)
    (objective_type (nnet_ trainer) (GetNodeIndex (nnet_ trainer) (name io)))
    (name io) true computer log = (Ok tot, computer', log1) ->
  ProcessOutputs_body io (trainer, computer) log =
    let trainer1 :=
      set_num_minibatches_processed
        (int32_add (num_minibatches_processed_ trainer) 1) trainer in
    match UpdateStats (name io) (print_interval (config_ trainer))
            (num_minibatches_processed_ trainer) (fst tot) (snd tot)
            (objf_info_at (name io) trainer1) log1 with
    | (r, info', log') =>
        (r, (set_objf_info_at (name io) info' trainer1, computer'), log')
    end.
Proof.
  intros Hidx Hout Hobj.
  unfold ProcessOutputs_body, bind, get, KALDI_ASSERT. cbn.
  apply Z.leb_le in Hidx. rewrite Hidx, Hout. unfold ret at 1.
  unfold on_computer, on_trainer, on_part at 1. cbn. rewrite Hobj.
  unfold on_part. cbn.
  by destruct (UpdateStats _ _ _ _ _ _ _) as [[r info'] log'].
Qed.

Lemma ProcessOutputs_body_inv io trainer computer log r trainer' computer' log' :
  ProcessOutputs_body io (trainer, computer) log = (r, (trainer', computer'), log') ->
  nnet_ trainer' = nnet_ trainer /\ config_ trainer' = config_ trainer /\
  (r = Ok tt ->
   num_minibatches_processed_ trainer' =
     if IsOutputNode (nnet_ trainer) (GetNodeIndex (nnet_ trainer) (name io))
     then int32_add (num_minibatches_processed_ trainer) 1
     else num_minibatches_processed_ trainer).
Proof.
  unfold ProcessOutputs_body, bind, get, KALDI_ASSERT. cbn.
  destruct (0 <=? GetNodeIndex (nnet_ trainer) (name io)); cbn.
  2:{ intros [= <- <- <- <-]. by repeat split. }
  destruct (IsOutputNode _ _); cbn.
  2:{ intros [= <- <- <- <-]. by repeat split. }
  unfold on_computer, on_trainer, on_part at 1. cbn.
  destruct (ComputeObjectiveFunction _ _ _ _ _ _) as [[[tot|e] computer1] log1].
  2:{ intros [= <- <- <- <-]. by repeat split. }
  unfold on_part. cbn.
  destruct (UpdateStats _ _ _ _ _ _ _) as [[r2 info'] log2].
  intros [= <- <- <- <-]. by repeat split.
Qed.

Lemma ProcessOutputs_loop_counter ios trainer computer log trainer' computer' log' :
  in_int32 (num_minibatches_processed_ trainer) ->
  num_minibatches_processed_ trainer
    + Z.of_nat (num_output_streams (nnet_ trainer) ios) <= INT32_MAX ->
  ProcessOutputs_loop ios (trainer, computer) log =
    (Ok tt, (trainer', computer'), log') ->
  num_minibatches_processed_ trainer' =
    num_minibatches_processed_ trainer
    + Z.of_nat (num_output_streams (nnet_ trainer) ios).
Proof.
  revert trainer computer log.
  induction ios as [|io ios IH]; intros trainer computer log Hin Hmax.
  - cbn. unfold ret. intros [= <- <- <-]. lia.
  - cbn [ProcessOutputs_loop]. unfold bind.
    destruct (ProcessOutputs_body io (trainer, computer) log)
      as [[r [trainer1 computer1]] log1] eqn:Hbody.
    apply ProcessOutputs_body_inv in Hbody as (Hnnet & _ & Hnum).
    destruct r as [[]|e]; [|done].
    specialize (Hnum eq_refl). intros Hloop.
    pose proof (IH trainer1 computer1 log1) as IH1. rewrite Hnnet in IH1.
    unfold num_output_streams in *. rewrite filter_cons in Hmax |- *.
    destruct (IsOutputNode (nnet_ trainer) (GetNodeIndex (nnet_ trainer) (name io))).
    + rewrite decide_True in Hmax |- * by done. cbn [length] in Hmax |- *.
      unfold int32_add in Hnum. rewrite wrap32_id in Hnum
        by (unfold in_int32 in *; lia).
      apply IH1 in Hloop; [lia| unfold in_int32 in *; lia | lia].
    + rewrite decide_False in Hmax |- * by done.
      apply IH1 in Hloop; [lia| by rewrite Hnum | lia].
Qed.

(** C6.  The trainer has one counter, [num_minibatches_processed_].  When
    [ProcessOutputs] returns, the counter has advanced by the number of streams
    of the example that are bound to an output node (by [k] for [k] output
    streams, not by one per example); and for each such stream, whatever its
    name, [UpdateStats] is called on the entry of that name with the value of
    this counter, which is incremented for the call. *)
Theorem ProcessOutputs_counts_output_streams eg trainer computer log
    trainer' computer' log' :
  in_int32 (num_minibatches_processed_ trainer) ->
  num_minibatches_processed_ trainer
    + Z.of_nat (num_output_streams (nnet_ trainer) (io eg)) <= INT32_MAX ->
  ProcessOutputs eg (trainer, computer) log =
    (Ok tt, (trainer', computer'), log') ->
  num_minibatches_processed_ trainer' =
    num_minibatches_processed_ trainer
    + Z.of_nat (num_output_streams (nnet_ trainer) (io eg)) /\
  (forall io0 this computer0 log0 tot computer1 log1,
     0 <= GetNodeIndex (nnet_ this) (name io0) ->
     IsOutputNode (nnet_ this) (GetNodeIndex (nnet_ this) (name io0)) = true ->
     ComputeObjectiveFunction (features io0)
       (objective_type (nnet_ this) (GetNodeIndex (nnet_ this) (name io0)))
       (name io0) true computer0 log0 = (Ok tot, computer1, log1) ->
     ProcessOutputs_body io0 (this, computer0) log0 =
       let this1 :=
         set_num_minibatches_processed
           (int32_add (num_minibatches_processed_ this) 1) this in
       match UpdateStats (name io0) (print_interval (config_ this))
               (num_minibatches_processed_ this) (fst tot) (snd tot)
               (objf_info_at (name io0) this1) log1 with
       | (r, info', log2) =>
           (r, (set_objf_info_at (name io0) info' this1, computer1), log2)
       end).
Proof.
  intros Hin Hmax Hrun. split.
  - by apply (ProcessOutputs_loop_counter _ _ _ _ _ _ _ Hin Hmax Hrun).
  - intros. by apply ProcessOutputs_body_output.
Qed.

(** C10.  A stream whose name the trainer has not seen yet gets a fresh
    record, with [current_phase = 0].  Its first [UpdateStats] call receives
    the trainer's shared counter [c]: when [c >= 2 * print_interval] the
    computed phase is at least 2 and the call stops on the phase assertion,
    with no report written; when [c < 2 * print_interval] the call returns. *)
Theorem ProcessOutputs_new_stream_needs_early_counter io trainer computer log :
  let L := print_interval (config_ trainer) in
  let c := num_minibatches_processed_ trainer in
  0 <= GetNodeIndex (nnet_ trainer) (name io) ->
  IsOutputNode (nnet_ trainer) (GetNodeIndex (nnet_ trainer) (name io)) = true ->
  NumCols (outputs computer (name io)) = GeneralMatrix_NumCols (features io) ->
  objf_info_ trainer !! name io = None ->
  0 < L -> 0 <= c <= INT32_MAX ->
  (2 * L <= c ->
   exists st, ProcessOutputs_body io (trainer, computer) log =
                (Fatal (AssertPhase (c / L) 0), st, log)) /\
  (c < 2 * L ->
   exists st log', ProcessOutputs_body io (trainer, computer) log =
                     (Ok tt, st, log')).
Proof.
  intros L c Hidx Hout Hcols Hnew HL Hc.
  destruct (ComputeObjectiveFunction_dim_match (features io)
              (objective_type (nnet_ trainer) (GetNodeIndex (nnet_ trainer) (name io)))
              (name io) true computer log Hcols) as (tot & computer' & Hobj).
  rewrite (ProcessOutputs_body_output _ _ _ _ _ _ _ Hidx Hout Hobj).
  cbv zeta. fold L c.
  assert (Hfresh : objf_info_at (name io)
            (set_num_minibatches_processed (int32_add c 1) trainer) =
          ObjectiveFunctionInfo_new).
  { unfold objf_info_at. cbn. by rewrite Hnew. }
  rewrite Hfresh.
  assert (Hdiv : int32_div c L = c / L).
  { rewrite int32_div_quot.
    - apply Z.quot_div_nonneg; lia.
    - unfold in_int32, INT32_MIN. lia.
    - lia. }
  clearbody L c. split.
  - intros Hlate.
    assert (2 <= c / L) by (apply Z.div_le_lower_bound; lia).
    rewrite UpdateStats_other_phase.
    + rewrite Hdiv. cbn. eauto.
    + rewrite Hdiv. cbn. lia.
    + rewrite Hdiv. cbn. change (int32_add 0 1) with 1. lia.
  - intros Hearly.
    assert (c / L < 2) by (apply Z.div_lt_upper_bound; lia).
    assert (0 <= c / L) by (apply Z.div_pos; lia).
    destruct (decide (c / L = 0)) as [Hzero|Hone].
    + rewrite UpdateStats_same_phase by (rewrite Hdiv; cbn; lia). eauto.
    + rewrite UpdateStats_next_phase.
      * eauto.
      * rewrite Hdiv. cbn. lia.
      * rewrite Hdiv. cbn. change (int32_add 0 1) with 1. lia.
Qed.

(** ** Any run of [UpdateStats] calls on one record *)

(** One [UpdateStats] call per element of [calls], each with its own minibatch
    counter, weight and objective. *)
Fixpoint UpdateStats_calls (output_name : string) (minibatches_per_phase : Z)
    (calls : list (Z * R * R)) : Kaldi ObjectiveFunctionInfo unit :=
  match calls with
  | [] => ret tt
  | (counter, w, o) :: rest =>
      UpdateStats output_name minibatches_per_phase counter w o ;;
      UpdateStats_calls output_name minibatches_per_phase rest
  end.

(** What a call of [UpdateStats] that returns has done. *)
Lemma UpdateStats_returns_inv output_name L c w o this log this' log' :
  0 < L -> 0 <= c <= INT32_MAX -> in_int32 (current_phase this) ->
  UpdateStats output_name L c w o this log = (Ok tt, this', log') ->
  (c / L = current_phase this /\ this' = accumulate w o this /\ log' = log) \/
  (c / L = current_phase this + 1 /\
   this' = accumulate w o (start_phase (c / L) this) /\
   exists start_minibatch end_minibatch,
     log' = log ++ [PhaseStatsLine output_name start_minibatch end_minibatch
                      (rdiv (tot_objf_this_phase this)
                            (tot_weight_this_phase this))
                      (tot_weight_this_phase this)]).
Proof.
  intros HL Hc Hcur Hrun.
  assert (Hdiv : int32_div c L = c / L).
  { rewrite int32_div_quot.
    - apply Z.quot_div_nonneg; lia.
    - unfold in_int32, INT32_MIN. lia.
    - lia. }
  assert (Hpos : 0 <= c / L) by (apply Z.div_pos; lia).
  destruct (decide (int32_div c L = current_phase this)) as [Hsame|Hne].
  - rewrite UpdateStats_same_phase in Hrun by done.
    injection Hrun as <- <-. left. by rewrite <- Hdiv.
  - destruct (decide (int32_div c L = int32_add (current_phase this) 1))
      as [Hnext|Hother].
    + rewrite UpdateStats_next_phase in Hrun by done.
      injection Hrun as <- <-. right. rewrite Hdiv in *.
      split; [|split; [done|eauto]].
      unfold int32_add in Hnext.
      destruct (decide (current_phase this < INT32_MAX)) as [Hlt|Hmax].
      * rewrite wrap32_id in Hnext; [done|]. unfold in_int32 in *. lia.
      * assert (Hcm : current_phase this = INT32_MAX)
          by (unfold in_int32 in *; lia).
        rewrite Hcm in Hnext.
        change (wrap32 (INT32_MAX + 1)) with INT32_MIN in Hnext.
        unfold INT32_MIN in Hnext. lia.
    + by rewrite UpdateStats_other_phase in Hrun.
Qed.

Lemma UpdateStats_calls_inv output_name L calls this log this' log' :
  0 < L -> in_int32 (current_phase this) ->
  Forall (fun call : Z * R * R => 0 <= fst (fst call) <= INT32_MAX) calls ->
  UpdateStats_calls output_name L calls this log = (Ok tt, this', log') ->
  in_int32 (current_phase this') /\
  current_phase this <= current_phase this' /\
  Z.of_nat (length log') =
    Z.of_nat (length log) + (current_phase this' - current_phase this) /\
  tot_weight this' =
    fold_left radd (map (fun call => snd (fst call)) calls) (tot_weight this) /\
  tot_objf this' =
    fold_left radd (map snd calls) (tot_objf this).
Proof.
  intros HL. revert this log.
  induction calls as [|[[c w] o] calls IH]; intros this log Hcur Hcalls.
  - cbn. unfold ret. intros [= <- <-]. split; [done|]. repeat split; lia.
  - apply Forall_cons in Hcalls as [Hc Hcalls]. cbn [fst] in Hc.
    cbn [UpdateStats_calls]. unfold bind.
    destruct (UpdateStats output_name L c w o this log)
      as [[[[]|e] this1] log1] eqn:Hstep; [|done].
    intros Hrest.
    assert (Hmax : c / L <= INT32_MAX).
    { assert (c / L <= c) by (apply Z.div_le_upper_bound; nia). lia. }
    assert (Hpos : 0 <= c / L) by (apply Z.div_pos; lia).
    apply UpdateStats_returns_inv in Hstep
      as [(Hp & -> & ->)|(Hp & -> & line1 & line2 & ->)]; try done.
    + apply IH in Hrest as (Hin & Hle & Hlen & Hw & Ho); try done.
    + apply IH in Hrest as (Hin & Hle & Hlen & Hw & Ho); try done.
      * cbn [accumulate start_phase current_phase tot_weight tot_objf] in *.
        rewrite length_app in Hlen. cbn [length] in Hlen.
        split; [done|]. repeat split; try done; lia.
      * cbn. unfold in_int32, INT32_MIN. lia.
Qed.

(** X1.  The running totals are never reset: after any run of [UpdateStats]
    calls that returns, across however many phase changes, [tot_weight] and
    [tot_objf] are the totals before the run with the weight and the objective
    of every call added on, in the order of the calls. *)
Theorem UpdateStats_totals_accumulate_across_phases output_name L calls
    this log this' log' :
  0 < L -> in_int32 (current_phase this) ->
  Forall (fun call : Z * R * R => 0 <= fst (fst call) <= INT32_MAX) calls ->
  UpdateStats_calls output_name L calls this log = (Ok tt, this', log') ->
  tot_weight this' =
    fold_left radd (map (fun call => snd (fst call)) calls) (tot_weight this) /\
  tot_objf this' =
    fold_left radd (map snd calls) (tot_objf this).
Proof.
  intros HL Hcur Hcalls Hrun.
  by destruct (UpdateStats_calls_inv _ _ _ _ _ _ _ HL Hcur Hcalls Hrun)
    as (_ & _ & _ & Hw & Ho).
Qed.

(** X2.  In any run of [UpdateStats] calls that returns, the phase of the
    record never goes back, and the run writes exactly one log line per phase
    it advanced: the log grows by [current_phase] after minus [current_phase]
    before. *)
Theorem UpdateStats_one_report_per_phase_advanced output_name L calls
    this log this' log' :
  0 < L -> in_int32 (current_phase this) ->
  Forall (fun call : Z * R * R => 0 <= fst (fst call) <= INT32_MAX) calls ->
  UpdateStats_calls output_name L calls this log = (Ok tt, this', log') ->
  current_phase this <= current_phase this' /\
  Z.of_nat (length log') =
    Z.of_nat (length log) + (current_phase this' - current_phase this).
Proof.
  intros HL Hcur Hcalls Hrun.
  by destruct (UpdateStats_calls_inv _ _ _ _ _ _ _ HL Hcur Hcalls Hrun)
    as (_ & Hle & Hlen & _).
Qed.


(** X20.  A fresh record whose first call has a counter in phase 1
    ([L <= counter < 2 * L]) writes a report for phase 0 although phase 0 saw
    no minibatch: the range is [0] to [L - 1], the frame count is 0.0 and the
    average is 0.0 / 0.0; the call itself is then counted in phase 1. *)
Theorem UpdateStats_first_call_in_phase_one output_name L c w o log :
  0 < L -> L <= c < 2 * L -> c <= INT32_MAX ->
  UpdateStats output_name L c w o ObjectiveFunctionInfo_new log =
    (Ok tt,
     {| current_phase := 1;
        tot_weight := radd r0 w; tot_objf := radd r0 o;
        tot_weight_this_phase := radd r0 w;
        tot_objf_this_phase := radd r0 o |},
     log ++ [PhaseStatsLine output_name 0 (L - 1) (rdiv r0 r0) r0]).
Proof.
  intros HL Hc Hmax.
  assert (Hdiv : int32_div c L = 1).
  { rewrite int32_div_quot.
    - rewrite Z.quot_div_nonneg by lia.
      symmetry. apply (Z.div_unique c L 1 (c - L)); lia.
    - unfold in_int32, INT32_MIN. lia.
    - lia. }
  rewrite UpdateStats_next_phase; rewrite ?Hdiv; cbn [current_phase ObjectiveFunctionInfo_new]; try done.
  unfold accumulate, start_phase. cbn.
  unfold int32_sub, int32_add, int32_mul.
  rewrite Z.mul_0_l. change (wrap32 0) with 0. rewrite Z.add_0_l.
  rewrite (wrap32_id L) by (unfold in_int32, INT32_MIN; lia).
  rewrite (wrap32_id (L - 1)) by (unfold in_int32, INT32_MIN; lia).
  reflexivity.
Qed.


(** ** What [ComputeObjectiveFunction] does to the computer *)


(** X3.  [ComputeObjectiveFunction] never writes to the log and never changes
    the outputs held by the computer.  Without [supply_deriv] it leaves the
    computer as it is and returns the same weight and objective (or the same
    error) as with it.  With [supply_deriv] it hands over exactly one
    derivative, under the output's name, when the column counts match, and
    none when they do not. *)
Theorem ComputeObjectiveFunction_effects supervision ty output_name computer log :
  let with_deriv :=
    ComputeObjectiveFunction supervision ty output_name true computer log in
  ComputeObjectiveFunction supervision ty output_name false computer log =
    (fst (fst with_deriv), computer, log) /\
  snd with_deriv = log /\
  outputs (snd (fst with_deriv)) = outputs computer /\
  (NumCols (outputs computer output_name) <> GeneralMatrix_NumCols supervision ->
   output_derivs (snd (fst with_deriv)) = output_derivs computer) /\
  (NumCols (outputs computer output_name) = GeneralMatrix_NumCols supervision ->
   exists output_deriv,
     output_derivs (snd (fst with_deriv)) =
       output_derivs computer ++ [(output_name, output_deriv)]).
Proof.
  destruct computer as [outs derivs]. cbv zeta.
  unfold ComputeObjectiveFunction, GetOutput, AcceptOutputDeriv, bind, get, put,
    ret, KALDI_ERR. cbn.
  destruct (NumCols (outs output_name) =? GeneralMatrix_NumCols supervision)%nat
    eqn:Hcols; cbn.
  - apply Nat.eqb_eq in Hcols.
    destruct ty; [destruct supervision|]; cbn; repeat split; try done; eauto.
  - apply Nat.eqb_neq in Hcols. repeat split; try done.
Qed.


(** ** More on the loop of [ProcessOutputs] *)

(** Whether a stream of an example is bound to an output node of [nnet]. *)
Definition is_output_stream (nnet : Nnet) (io : NnetIo) : Prop :=
  IsOutputNode nnet (GetNodeIndex nnet (name io)) = true.

#[local] Instance is_output_stream_dec nnet io :
  Decision (is_output_stream nnet io).
Proof. unfold is_output_stream. apply _. Defined.

Lemma ProcessOutputs_body_unknown io trainer computer log :
  GetNodeIndex (nnet_ trainer) (name io) < 0 ->
  ProcessOutputs_body io (trainer, computer) log =
    (Fatal (AssertNodeIndex (name io)), (trainer, computer), log).
Proof.
  intros Hidx. unfold ProcessOutputs_body, bind, get, KALDI_ASSERT. cbn.
  apply Z.leb_gt in Hidx. by rewrite Hidx.
Qed.

Lemma ComputeObjectiveFunction_accepts supervision ty output_name computer log :
  NumCols (outputs computer output_name) = GeneralMatrix_NumCols supervision ->
  exists tot output_deriv,
    ComputeObjectiveFunction supervision ty output_name true computer log =
      (Ok tot,
       {| outputs := outputs computer;
          output_derivs :=
            output_derivs computer ++ [(output_name, output_deriv)] |},
       log).
Proof.
  intros Heq. unfold ComputeObjectiveFunction, GetOutput, bind, get, ret.
  rewrite Heq, Nat.eqb_refl. cbn [negb].
  destruct ty; [destruct supervision|]; cbn; eauto.
Qed.

(** What one turn of the loop can have done, whatever its outcome. *)
Lemma ProcessOutputs_body_effect io trainer computer log
    r trainer' computer' log' :
  ProcessOutputs_body io (trainer, computer) log =
    (r, (trainer', computer'), log') ->
  nnet_ trainer' = nnet_ trainer /\ config_ trainer' = config_ trainer /\
  outputs computer' = outputs computer /\
  ((trainer' = trainer /\ computer' = computer /\
    (r = Ok tt -> ~ is_output_stream (nnet_ trainer) io)) \/
   (is_output_stream (nnet_ trainer) io /\
    (exists output_deriv,
       output_derivs computer' =
         output_derivs computer ++ [(name io, output_deriv)]) /\
    (exists info,
       objf_info_ trainer' = <[name io := info]> (objf_info_ trainer)))).
Proof.
  destruct (decide (0 <= GetNodeIndex (nnet_ trainer) (name io))) as [Hidx|Hidx].
  2:{ rewrite ProcessOutputs_body_unknown by lia.
      intros [= <- <- <- <-]. repeat split. left. by repeat split. }
  destruct (IsOutputNode (nnet_ trainer) (GetNodeIndex (nnet_ trainer) (name io)))
    eqn:Hout.
  2:{ rewrite ProcessOutputs_body_not_output by done.
      intros [= <- <- <- <-]. repeat split. left. repeat split.
      unfold is_output_stream. by rewrite Hout. }
  destruct (decide (NumCols (outputs computer (name io)) =
                    GeneralMatrix_NumCols (features io))) as [Hcols|Hcols].
  - destruct (ComputeObjectiveFunction_accepts (features io)
                (objective_type (nnet_ trainer)
                   (GetNodeIndex (nnet_ trainer) (name io)))
                (name io) computer log Hcols) as (tot & output_deriv & Hobj).
    rewrite (ProcessOutputs_body_output _ _ _ _ _ _ _ Hidx Hout Hobj).
    cbv zeta. destruct (UpdateStats _ _ _ _ _ _ _) as [[r2 info] log2].
    intros [= <- <- <- <-]. repeat split. right. split; [done|].
    split; eauto.
  - unfold ProcessOutputs_body, bind, get, KALDI_ASSERT. cbn.
    apply Z.leb_le in Hidx. rewrite Hidx, Hout. cbn.
    unfold on_computer, on_part. cbn.
    rewrite ComputeObjectiveFunction_dim_mismatch by done.
    intros [= <- <- <- <-]. repeat split. left. by repeat split.
Qed.

Lemma ProcessOutputs_loop_effect ios trainer computer log
    r trainer' computer' log' :
  ProcessOutputs_loop ios (trainer, computer) log =
    (r, (trainer', computer'), log') ->
  nnet_ trainer' = nnet_ trainer /\ config_ trainer' = config_ trainer /\
  outputs computer' = outputs computer /\
  (forall n, is_Some (objf_info_ trainer !! n) ->
             is_Some (objf_info_ trainer' !! n)) /\
  (forall n, n ∉ map name (filter (is_output_stream (nnet_ trainer)) ios) ->
             objf_info_ trainer' !! n = objf_info_ trainer !! n) /\
  (r = Ok tt ->
   (forall n, n ∈ map name (filter (is_output_stream (nnet_ trainer)) ios) ->
              is_Some (objf_info_ trainer' !! n)) /\
   exists derivs,
     output_derivs computer' = output_derivs computer ++ derivs /\
     map fst derivs = map name (filter (is_output_stream (nnet_ trainer)) ios)).
Proof.
  revert trainer computer log.
  induction ios as [|io ios IH]; intros trainer computer log.
  - cbn. unfold ret. intros [= <- <- <- <-].
    repeat split; try done.
    + intros n Hn. by apply elem_of_nil in Hn.
    + exists []. by rewrite app_nil_r.
  - cbn [ProcessOutputs_loop]. unfold bind.
    destruct (ProcessOutputs_body io (trainer, computer) log)
      as [[r1 [trainer1 computer1]] log1] eqn:Hbody.
    apply ProcessOutputs_body_effect in Hbody
      as (Hnnet & Hconfig & Houts & Hcase).
    rewrite filter_cons.
    destruct r1 as [[]|e].
    + intros Hloop.
      apply IH in Hloop as (Hnnet' & Hconfig' & Houts' & Hkeep & Hother & Hok).
      rewrite Hnnet in *.
      destruct Hcase as [(-> & -> & Hnot)|(Hout & [D HD] & [info Hinfo])].
      * rewrite decide_False by auto.
        repeat split; try done; by apply Hok.
      * rewrite decide_True by done. cbn [map].
        repeat split; try congruence.
        -- intros n Hn. apply Hkeep. rewrite Hinfo.
           destruct (decide (name io = n)) as [->|Hne].
           ++ rewrite lookup_insert_eq. eauto.
           ++ by rewrite lookup_insert_ne.
        -- intros n Hn. apply not_elem_of_cons in Hn as [Hne Hn].
           rewrite Hother, Hinfo by done. by rewrite lookup_insert_ne.
        -- intros n Hn. apply elem_of_cons in Hn as [->|Hn].
           ++ apply Hkeep. rewrite Hinfo, lookup_insert_eq. eauto.
           ++ by apply Hok.
        -- destruct (Hok H) as (_ & derivs & Hderivs & Hnames).
           exists ((name io, D) :: derivs). split.
           ++ rewrite Hderivs, HD, <- app_assoc. reflexivity.
           ++ cbn. by rewrite Hnames.
    + intros [= <- <- <- <-].
      destruct Hcase as [(-> & -> & _)|(Hout & [D HD] & [info Hinfo])].
      * repeat split; try done.
      * rewrite decide_True by done. cbn [map].
        repeat split; try done.
        -- intros n Hn. rewrite Hinfo.
           destruct (decide (name io = n)) as [->|Hne].
           ++ rewrite lookup_insert_eq. eauto.
           ++ by rewrite lookup_insert_ne.
        -- intros n Hn. apply not_elem_of_cons in Hn as [Hne Hn].
           rewrite Hinfo. by rewrite lookup_insert_ne.
Qed.


Lemma ProcessOutputs_loop_filter ios trainer computer log :
  Forall (fun io => 0 <= GetNodeIndex (nnet_ trainer) (name io)) ios ->
  ProcessOutputs_loop ios (trainer, computer) log =
  ProcessOutputs_loop (filter (is_output_stream (nnet_ trainer)) ios)
    (trainer, computer) log.
Proof.
  revert trainer computer log.
  induction ios as [|io ios IH]; intros trainer computer log Hknown; [done|].
  apply Forall_cons in Hknown as [Hidx Hknown]. rewrite filter_cons.
  destruct (decide (is_output_stream (nnet_ trainer) io)) as [Hout|Hout].
  - cbn [ProcessOutputs_loop]. unfold bind.
    destruct (ProcessOutputs_body io (trainer, computer) log)
      as [[[[]|e] [trainer1 computer1]] log1] eqn:Hbody; [|done].
    apply ProcessOutputs_body_effect in Hbody as (Hnnet & _).
    rewrite <- Hnnet. apply IH. by rewrite Hnnet.
  - cbn [ProcessOutputs_loop]. unfold bind.
    rewrite ProcessOutputs_body_not_output; [by apply IH|done|].
    unfold is_output_stream in Hout. by destruct (IsOutputNode _ _).
Qed.

(** X4.  Streams of the example that are bound to a node of the network that
    is not an output node (the inputs) are skipped: when every stream name is
    known to the network, [ProcessOutputs] does on the example what it does on
    the example with only its output streams, and on an example without output
    stream it does nothing at all. *)
Theorem ProcessOutputs_skips_other_streams eg trainer computer log :
  Forall (fun io => 0 <= GetNodeIndex (nnet_ trainer) (name io)) (io eg) ->
  ProcessOutputs eg (trainer, computer) log =
    ProcessOutputs
      {| io := filter (is_output_stream (nnet_ trainer)) (io eg) |}
      (trainer, computer) log /\
  (filter (is_output_stream (nnet_ trainer)) (io eg) = [] ->
   ProcessOutputs eg (trainer, computer) log = (Ok tt, (trainer, computer), log)).
Proof.
  intros Hknown. unfold ProcessOutputs. cbn [io].
  rewrite ProcessOutputs_loop_filter by done. split; [done|].
  by intros ->.
Qed.

Lemma ProcessOutputs_loop_unknown ios trainer computer log :
  Exists (fun io => GetNodeIndex (nnet_ trainer) (name io) < 0) ios ->
  exists e st log',
    ProcessOutputs_loop ios (trainer, computer) log = (Fatal e, st, log').
Proof.
  intros Hex. revert trainer computer log Hex.
  induction ios as [|io ios IH]; intros trainer computer log Hex.
  - by apply Exists_nil in Hex.
  - cbn [ProcessOutputs_loop]. unfold bind.
    destruct (ProcessOutputs_body io (trainer, computer) log)
      as [[[[]|e] [trainer1 computer1]] log1] eqn:Hbody; [|eauto].
    apply Exists_cons in Hex as [Hidx|Hex].
    + rewrite ProcessOutputs_body_unknown in Hbody by done. discriminate Hbody.
    + apply ProcessOutputs_body_effect in Hbody as (Hnnet & _).
      apply IH. by rewrite Hnnet.
Qed.

(** X5.  An example with a stream whose name the network does not know
    ([GetNodeIndex] is negative) is never processed to the end:
    [ProcessOutputs] stops with an error, whatever else the example holds. *)
Theorem ProcessOutputs_unknown_stream_is_fatal eg trainer computer log :
  Exists (fun io => GetNodeIndex (nnet_ trainer) (name io) < 0) (io eg) ->
  exists e st log',
    ProcessOutputs eg (trainer, computer) log = (Fatal e, st, log').
Proof. apply ProcessOutputs_loop_unknown. Qed.

(** X6.  Whatever its outcome, [ProcessOutputs] leaves the options and the
    network of the trainer as they are, never removes a stream's statistics,
    and does not touch the statistics of any name that is not the name of an
    output stream of the example. *)
Theorem ProcessOutputs_streams_independent eg trainer computer log
    r trainer' computer' log' :
  ProcessOutputs eg (trainer, computer) log = (r, (trainer', computer'), log') ->
  nnet_ trainer' = nnet_ trainer /\ config_ trainer' = config_ trainer /\
  (forall n, is_Some (objf_info_ trainer !! n) ->
             is_Some (objf_info_ trainer' !! n)) /\
  (forall n,
     n ∉ map name (filter (is_output_stream (nnet_ trainer)) (io eg)) ->
     objf_info_ trainer' !! n = objf_info_ trainer !! n).
Proof.
  intros Hrun. apply ProcessOutputs_loop_effect in Hrun
    as (Hnnet & Hconfig & _ & Hkeep & Hother & _).
  done.
Qed.

(** X7.  When [ProcessOutputs] returns, the computer has accepted exactly one
    derivative per output stream of the example, under the names of these
    streams and in their order, after the derivatives it held; its outputs are
    unchanged; and every output stream of the example has statistics. *)
Theorem ProcessOutputs_one_deriv_per_output_stream eg trainer computer log
    trainer' computer' log' :
  ProcessOutputs eg (trainer, computer) log =
    (Ok tt, (trainer', computer'), log') ->
  outputs computer' = outputs computer /\
  (exists derivs,
     output_derivs computer' = output_derivs computer ++ derivs /\
     map fst derivs =
       map name (filter (is_output_stream (nnet_ trainer)) (io eg))) /\
  (forall n,
     n ∈ map name (filter (is_output_stream (nnet_ trainer)) (io eg)) ->
     is_Some (objf_info_ trainer' !! n)).
Proof.
  intros Hrun. apply ProcessOutputs_loop_effect in Hrun
    as (_ & _ & Houts & _ & _ & Hok).
  destruct (Hok eq_refl) as [Hstats Hderivs]. done.
Qed.


(** ** More on the final report *)

Lemma up_to_first_nonzero_all_zero entries :
  Forall (fun entry => rnez (tot_weight (snd entry)) = false) entries ->
  up_to_first_nonzero entries = entries /\
  existsb (fun entry => rnez (tot_weight (snd entry))) entries = false.
Proof.
  induction 1 as [|entry rest Hz _ [IH1 IH2]]; [done|].
  cbn. by rewrite Hz, IH1, IH2.
Qed.

Lemma up_to_first_nonzero_take entries :
  exists k,
    (k <= length entries)%nat /\ (entries <> [] -> (1 <= k)%nat) /\
    up_to_first_nonzero entries = take k entries.
Proof.
  induction entries as [|entry rest (k & Hk & _ & IH)].
  - exists 0%nat. by repeat split.
  - cbn [up_to_first_nonzero]. destruct (rnez (tot_weight (snd entry))).
    + exists 1%nat. cbn. split; [lia|]. split; [lia|]. by rewrite take_0.
    + exists (S k). cbn. split; [lia|]. split; [lia|]. by rewrite IH.
Qed.

(** X8.  When no stream has a total weight that passes [!= 0.0] (in
    particular when no stream was ever seen), [NnetTrainer::PrintTotalStats]
    writes the summary line of every stream of the map, one each, returns
    false and leaves the trainer as it is. *)
Theorem NnetTrainer_PrintTotalStats_all_zero (trainer : NnetTrainer) log :
  map_Forall (fun _ info => rnez (tot_weight info) = false) (objf_info_ trainer) ->
  NnetTrainer_PrintTotalStats trainer log =
    (Ok false, trainer,
     log ++ map summary_line (map_to_list (objf_info_ trainer))) /\
  length (map summary_line (map_to_list (objf_info_ trainer))) =
    size (objf_info_ trainer).
Proof.
  intros Hall. rewrite NnetTrainer_PrintTotalStats_eq.
  apply map_Forall_to_list in Hall.
  assert (Hall' : Forall (fun entry : string * ObjectiveFunctionInfo =>
                            rnez (tot_weight (snd entry)) = false)
                    (map_to_list (objf_info_ trainer))).
  { eapply Forall_impl; [exact Hall|]. by intros [n info]. }
  destruct (up_to_first_nonzero_all_zero _ Hall') as [-> ->].
  split; [done|]. by rewrite length_map, length_map_to_list.
Qed.

(** X9.  [NnetTrainer::PrintTotalStats] always returns, never changes the
    trainer, and writes the summary lines of the first [k] streams in the
    order it visits the map, for some [k] that is at most the number of
    streams and at least one when there is a stream. *)
Theorem NnetTrainer_PrintTotalStats_writes_a_prefix (trainer : NnetTrainer) log :
  exists b k,
    (k <= size (objf_info_ trainer))%nat /\
    (objf_info_ trainer <> ∅ -> (1 <= k)%nat) /\
    NnetTrainer_PrintTotalStats trainer log =
      (Ok b, trainer,
       log ++ map summary_line (take k (map_to_list (objf_info_ trainer)))).
Proof.
  rewrite NnetTrainer_PrintTotalStats_eq.
  destruct (up_to_first_nonzero_take (map_to_list (objf_info_ trainer)))
    as (k & Hk & Hpos & ->).
  rewrite length_map_to_list in Hk.
  eexists _, k. split; [done|]. split; [|done].
  intros Hne. apply Hpos. intros Hnil. apply Hne.
  by apply map_to_list_empty_iff.
Qed.


(** ** Training on examples (nnet-training.cc:37-52) *)

(** The collaborators of [Train] that are outside these files build the
    computation request from the network, the example, the flag
    [need_model_derivative] and the option [store_component_stats], compile
    it, and run the forward pass of a fresh [NnetComputer] on the inputs of
    the example.  What [Train] uses of all this is the outputs the computer
    then holds, taken as given. *)
Context (forward_outputs : Nnet -> NnetExample -> bool -> bool -> string -> Matrix).

(** nnet-training.cc:37-52.  The computer is local to the call.  [Backward]
    consumes the derivatives the computer accepted and updates the parameters
    of the network; it changes neither the nodes of the network, which is all
    [Nnet] holds here, nor the trainer, and so leaves no trace in this
    model. *)
Definition Train (eg : NnetExample) : Kaldi NnetTrainer unit :=
  fun this log =>
    let need_model_derivative := true in
    let computer :=
      {| outputs := forward_outputs (nnet_ this) eg need_model_derivative
                      (store_component_stats (config_ this));
         output_derivs := [] |} in
    match ProcessOutputs eg (this, computer) log with
    | (r, (this', _), log') => (r, this', log')
    end.













(** ** Edge cases of [Train] and of the quadratic weight *)


Lemma ProcessOutputs_body_dim_mismatch io trainer computer log :
  0 <= GetNodeIndex (nnet_ trainer) (name io) ->
  is_output_stream (nnet_ trainer) io ->
  NumCols (outputs computer (name io)) <> GeneralMatrix_NumCols (features io) ->
  ProcessOutputs_body io (trainer, computer) log =
    (Fatal (ErrDimMismatch (name io)
              (Z.of_nat (NumCols (outputs computer (name io))))
              (Z.of_nat (GeneralMatrix_NumCols (features io)))),
     (trainer, computer), log).
Proof.
  intros Hidx Hout Hcols.
  unfold ProcessOutputs_body, bind, get, KALDI_ASSERT. cbn.
  apply Z.leb_le in Hidx. rewrite Hidx, Hout. cbn.
  unfold on_computer, on_part. cbn.
  by rewrite ComputeObjectiveFunction_dim_mismatch.
Qed.

(** X18.  When the supervision of the output stream of an example does not
    have as many columns as the output of the network, [Train] stops with the
    dimension error, naming the stream and both column counts, before the
    counter or any statistics are touched: trainer and log are unchanged. *)
Theorem Train_dim_mismatch eg io0 this log :
  let output :=
    forward_outputs (nnet_ this) eg true (store_component_stats (config_ this))
      (name io0) in
  Forall (fun io => 0 <= GetNodeIndex (nnet_ this) (name io)) (io eg) ->
  filter (is_output_stream (nnet_ this)) (io eg) = [io0] ->
  NumCols output <> GeneralMatrix_NumCols (features io0) ->
  Train eg this log =
    (Fatal (ErrDimMismatch (name io0) (Z.of_nat (NumCols output))
              (Z.of_nat (GeneralMatrix_NumCols (features io0)))),
     this, log).
Proof.
  intros output Hknown Hfilter Hcols. unfold Train, ProcessOutputs. cbv zeta.
  rewrite ProcessOutputs_loop_filter by done. rewrite Hfilter.
  assert (Hin : io0 ∈ filter (is_output_stream (nnet_ this)) (io eg))
    by (rewrite Hfilter; apply list_elem_of_here).
  apply list_elem_of_filter in Hin as [Hout Hin].
  assert (Hidx : 0 <= GetNodeIndex (nnet_ this) (name io0))
    by (by apply (proj1 (Forall_forall _ _) Hknown io0)).
  cbn [ProcessOutputs_loop]. unfold bind.
  by rewrite ProcessOutputs_body_dim_mismatch.
Qed.






(** ** Results that need exact arithmetic *)

Section Exact.

Context {laws : BaseFloatLaws R}.

Add Ring R_is_a_ring : R_ring.

(** C9.  [ObjectiveFunctionInfo::PrintTotalStats] writes the line whose
    average is the total objective divided by the total weight and returns
    true exactly when the total weight is not zero;
    [NnetTrainer::PrintTotalStats] returns true exactly when some stream of
    the map has a total weight that is not zero, so a run without weight
    returns false. *)
Theorem PrintTotalStats_true_iff_nonzero_weight :
  (forall name this log,
     exists b,
       ObjectiveFunctionInfo_PrintTotalStats name this log =
         (Ok b, this,
          log ++ [TotalStatsLine name (rdiv (tot_objf this) (tot_weight this))
                    (tot_weight this)]) /\
       (b = true <-> tot_weight this <> r0)) /\
  (forall (trainer : NnetTrainer) log,
     exists b log',
       NnetTrainer_PrintTotalStats trainer log = (Ok b, trainer, log') /\
       (b = true <->
        exists name info,
          objf_info_ trainer !! name = Some info /\ tot_weight info <> r0)).
Proof.
  split.
  - intros name this log. exists (rnez (tot_weight this)). split; [done|].
    apply rnez_spec.
  - intros trainer log. rewrite NnetTrainer_PrintTotalStats_eq.
    eexists _, _. split; [done|].
    rewrite existsb_exists. split.
    + intros ([name info] & Hin & Hnz). exists name, info. split.
      * apply elem_of_map_to_list. by apply list_elem_of_In.
      * by apply rnez_spec.
    + intros (name & info & Hlook & Hnz). exists (name, info). split.
      * apply list_elem_of_In. by apply elem_of_map_to_list.
      * by apply rnez_spec.
Qed.

(** *** Sums *)

Arguments rsum : simpl never.

Lemma rsum_nil : rsum [] = r0.
Proof. reflexivity. Qed.

Lemma fold_left_radd (v : list R) (a : R) :
  fold_left radd v a = radd a (rsum v).
Proof.
  unfold rsum. revert a. induction v as [|x v IH]; intros a; cbn.
  - ring.
  - rewrite IH, (IH (radd r0 x)). ring.
Qed.

Lemma rsum_cons (x : R) (v : list R) : rsum (x :: v) = radd x (rsum v).
Proof. unfold rsum at 1. cbn. rewrite fold_left_radd. ring. Qed.

Lemma rsum_app (u v : list R) : rsum (u ++ v) = radd (rsum u) (rsum v).
Proof.
  induction u as [|x u IH]; cbn [app].
  - rewrite rsum_nil. ring.
  - rewrite !rsum_cons, IH. ring.
Qed.

Lemma rsum_replicate_zero (n : nat) : rsum (replicate n r0) = r0.
Proof.
  induction n as [|n IH]; [done|]. cbn [replicate]. rewrite rsum_cons, IH. ring.
Qed.

Lemma Sum_rows (M : Matrix) : Sum M = rsum (map rsum M).
Proof.
  unfold Sum. induction M as [|row M IH]; [done|].
  cbn [concat map]. by rewrite rsum_app, rsum_cons, IH.
Qed.

(** The trace of [A * B^T] is the sum of the entries of the element-wise
    product. *)
Lemma TraceMatMat_kTrans_MulElements (A B : Matrix) :
  TraceMatMat_kTrans A B = Sum (MulElements A B).
Proof.
  rewrite Sum_rows. unfold TraceMatMat_kTrans, MulElements. f_equal.
  revert B. induction A as [|a A IH]; intros [|b B]; cbn; [done..|].
  by rewrite IH.
Qed.

(** *** A sparse row and its dense form *)

Lemma rsum_insert_zero (base : list R) (i : nat) (v : R) :
  base !! i = Some r0 -> rsum (<[i:=v]> base) = radd (rsum base) v.
Proof.
  revert i. induction base as [|x base IH]; intros [|i] Hi; try done.
  - injection Hi as ->. simpl. rewrite !rsum_cons. ring.
  - simpl. rewrite !rsum_cons, (IH i Hi). ring.
Qed.

Lemma VecVec_insert_zero (a base : list R) (i : nat) (v : R) :
  base !! i = Some r0 ->
  VecVec a (<[i:=v]> base) = radd (VecVec a base) (rmul (default r0 (a !! i)) v).
Proof.
  unfold VecVec. revert a i.
  induction base as [|x base IH]; intros [|y a] [|i] Hi; try done; simpl.
  - rewrite rsum_nil. ring.
  - rewrite rsum_nil. ring.
  - injection Hi as ->. rewrite !rsum_cons. ring.
  - rewrite !rsum_cons, (IH a i Hi). ring.
Qed.

(** Storing pairs with distinct indexes into positions that hold zero adds
    each pair's contribution [kappa] to an additive measure [mu] of the row. *)
Lemma fold_insert_measure (mu : list R -> R) (kappa : nat -> R -> R) :
  (forall base i v, base !! i = Some r0 ->
     mu (<[i:=v]> base) = radd (mu base) (kappa i v)) ->
  forall (pairs : list (nat * R)) (base : list R),
    NoDup (map fst pairs) ->
    Forall (fun p => base !! fst p = Some r0) pairs ->
    mu (fold_left (fun v p => <[fst p := snd p]> v) pairs base) =
      radd (mu base) (rsum (map (fun p => kappa (fst p) (snd p)) pairs)).
Proof.
  intros Hmu pairs. induction pairs as [|[i v] pairs IH]; intros base Hnd Hz.
  - cbn. rewrite rsum_nil. ring.
  - cbn [fold_left map fst snd] in *.
    apply NoDup_cons in Hnd as [Hi Hnd]. apply Forall_cons in Hz as [Hiz Hz].
    rewrite IH, Hmu, rsum_cons; [ring|done|done|].
    apply Forall_forall. intros [j u] Hj. cbn.
    rewrite list_lookup_insert_ne.
    + by apply (proj1 (Forall_forall _ _) Hz (j, u)).
    + intros ->. apply Hi. apply list_elem_of_fmap. by exists (j, u).
Qed.

Lemma SparseVector_wf_zero cols (svec : SparseVector) :
  SparseVector_wf cols svec ->
  NoDup (map fst (pairs_ svec)) /\
  Forall (fun p => replicate cols r0 !! fst p = Some r0) (pairs_ svec).
Proof.
  intros (_ & Hnd & Hlt). split; [done|].
  eapply Forall_impl; [exact Hlt|]. intros p Hp. cbn in Hp.
  by apply lookup_replicate_2.
Qed.

Lemma SparseVector_Sum_dense cols (svec : SparseVector) (vec : list R) :
  SparseVector_wf cols svec -> length vec = cols ->
  rsum (CopyElementsToVec svec vec) = SparseVector_Sum svec.
Proof.
  intros Hwf Hlen. apply SparseVector_wf_zero in Hwf as [Hnd Hz].
  unfold CopyElementsToVec, SparseVector_Sum. rewrite Hlen.
  rewrite (fold_insert_measure rsum (fun _ v => v) rsum_insert_zero) by done.
  rewrite rsum_replicate_zero.
  transitivity (radd r0 (rsum (map snd (pairs_ svec)))); [reflexivity|ring].
Qed.

Lemma VecVec_replicate_zero (a : list R) (n : nat) :
  VecVec a (replicate n r0) = r0.
Proof.
  unfold VecVec. revert a.
  induction n as [|n IH]; intros [|y a]; simpl; try done.
  rewrite rsum_cons, IH. ring.
Qed.

Lemma VecSvec_dense cols (a : list R) (svec : SparseVector) (vec : list R) :
  SparseVector_wf cols svec -> length vec = cols ->
  VecVec a (CopyElementsToVec svec vec) = VecSvec a svec.
Proof.
  intros Hwf Hlen. apply SparseVector_wf_zero in Hwf as [Hnd Hz].
  unfold CopyElementsToVec, VecSvec. rewrite Hlen.
  rewrite (fold_insert_measure (VecVec a)
             (fun i v => rmul (default r0 (a !! i)) v)
             (VecVec_insert_zero a)) by done.
  rewrite VecVec_replicate_zero. ring.
Qed.

Lemma SparseMatrix_CopyToMat_replicate (S : SparseMatrix) (row : list R) :
  SparseMatrix_CopyToMat S (replicate (length S) row) =
  map (fun svec => CopyElementsToVec svec row) S.
Proof. induction S as [|svec S IH]; [done|]. cbn. by rewrite IH. Qed.

Lemma GetMatrix_sparse (S : SparseMatrix) :
  GetMatrix (kSparseMatrix S) =
  map (fun svec =>
         CopyElementsToVec svec (replicate (SparseMatrix_NumCols S) uninitialized))
      S.
Proof. apply SparseMatrix_CopyToMat_replicate. Qed.

Lemma SparseMatrix_Sum_dense (S : SparseMatrix) :
  SparseMatrix_wf S -> SparseMatrix_Sum S = Sum (GetMatrix (kSparseMatrix S)).
Proof.
  intros Hwf. rewrite Sum_rows, GetMatrix_sparse. unfold SparseMatrix_Sum.
  f_equal. rewrite map_map. unfold SparseMatrix_wf in Hwf.
  generalize (SparseMatrix_NumCols S) Hwf. clear Hwf. intros cols Hwf.
  induction Hwf as [|svec S Hsvec _ IH]; [done|]. cbn [map].
  rewrite IH. f_equal. symmetry.
  eapply SparseVector_Sum_dense; [done|]. apply length_replicate.
Qed.

Lemma TraceMatSmat_dense (A : Matrix) (S : SparseMatrix) :
  SparseMatrix_wf S ->
  TraceMatSmat_kTrans A S = TraceMatMat_kTrans A (GetMatrix (kSparseMatrix S)).
Proof.
  intros Hwf. rewrite GetMatrix_sparse.
  unfold TraceMatSmat_kTrans, TraceMatMat_kTrans, SparseMatrix_wf in *. f_equal.
  generalize (SparseMatrix_NumCols S) Hwf. clear Hwf. intros cols Hwf.
  revert A. induction Hwf as [|svec S Hsvec _ IH]; intros [|a A]; cbn; try done.
  rewrite IH. f_equal. symmetry.
  eapply VecSvec_dense; [done|]. apply length_replicate.
Qed.

(** *** Shapes *)

Lemma length_CopyElementsToVec (svec : SparseVector) (vec : list R) :
  length (CopyElementsToVec svec vec) = length vec.
Proof.
  unfold CopyElementsToVec.
  assert (Hfold : forall pairs (base : list R),
            length (fold_left (fun v (p : nat * R) => <[fst p := snd p]> v)
                      pairs base) = length base).
  { intros pairs. induction pairs as [|p pairs IH]; intros base; [done|].
    cbn [fold_left]. by rewrite IH, length_insert. }
  by rewrite Hfold, length_replicate.
Qed.

Lemma GetMatrix_NumRows (G : GeneralMatrix) :
  NumRows (GetMatrix G) = GeneralMatrix_NumRows G.
Proof.
  destruct G as [mat|cmat|smat]; [done..|].
  rewrite GetMatrix_sparse. apply length_map.
Qed.

Lemma GetMatrix_row_lengths (G : GeneralMatrix) :
  GeneralMatrix_wf G ->
  Forall (fun row => length row = GeneralMatrix_NumCols G) (GetMatrix G).
Proof.
  destruct G as [mat|cmat|smat]; [done..|]. intros _.
  rewrite GetMatrix_sparse. apply Forall_forall. intros row Hrow.
  apply list_elem_of_In, in_map_iff in Hrow as (svec & <- & _).
  by rewrite length_CopyElementsToVec, length_replicate.
Qed.

(** Two matrices have the same shape: as many rows, of the same lengths. *)
Definition same_shape (A B : Matrix) : Prop :=
  Forall2 (fun a b : list R => length a = length b) A B.

Lemma same_shape_intro (A B : Matrix) (cols : nat) :
  Forall (fun row => length row = cols) A ->
  Forall (fun row => length row = cols) B ->
  length A = length B -> same_shape A B.
Proof.
  intros HA. revert B. induction HA as [|a A Ha _ IH]; intros [|b B] HB Hlen;
    try done; [constructor|].
  apply Forall_cons in HB as [Hb HB]. constructor; [congruence|].
  apply IH; [done|]. by injection Hlen.
Qed.

Lemma supervision_same_shape (G : GeneralMatrix) (output : Matrix) :
  GeneralMatrix_wf G -> rectangular output ->
  NumRows output = GeneralMatrix_NumRows G ->
  NumCols output = GeneralMatrix_NumCols G ->
  same_shape (GetMatrix G) output.
Proof.
  intros Hwf Hrect Hrows Hcols.
  apply (same_shape_intro _ _ (GeneralMatrix_NumCols G)).
  - by apply GetMatrix_row_lengths.
  - unfold rectangular in Hrect. by rewrite Hcols in Hrect.
  - pose proof (GetMatrix_NumRows G) as HG. unfold NumRows in *. congruence.
Qed.

(** *** The linear objective, whatever the encoding *)

(** The computer after it accepted [output_deriv] for [output_name]. *)
Definition with_output_deriv (output_name : string) (output_deriv : Matrix)
    (computer : NnetComputer) : NnetComputer :=
  {| outputs := outputs computer;
     output_derivs := output_derivs computer ++ [(output_name, output_deriv)] |}.

(** The matrix the linear branch hands over as derivative: the supervision
    matrix itself for the full and compressed encodings, and for the sparse
    encoding the sparse matrix copied into a matrix of the output's shape. *)
Definition linear_deriv (supervision : GeneralMatrix) (output : Matrix) :
    Matrix :=
  match supervision with
  | kSparseMatrix smat =>
      SparseMatrix_CopyToMat smat
        (CuMatrix_new (NumRows output) (NumCols output))
  | _ => GetMatrix supervision
  end.

Lemma linear_deriv_same_shape supervision output :
  NumRows output = GeneralMatrix_NumRows supervision ->
  NumCols output = GeneralMatrix_NumCols supervision ->
  linear_deriv supervision output = GetMatrix supervision.
Proof.
  intros Hrows Hcols. destruct supervision as [mat|cmat|smat]; [done..|].
  unfold linear_deriv. by rewrite Hrows, Hcols.
Qed.

Lemma ComputeObjectiveFunction_linear supervision output_name supply_deriv
    computer log :
  let output := outputs computer output_name in
  let M := GetMatrix supervision in
  GeneralMatrix_wf supervision ->
  NumCols output = GeneralMatrix_NumCols supervision ->
  ComputeObjectiveFunction supervision kLinear output_name supply_deriv
    computer log =
    (Ok (Sum M, Sum (MulElements output M)),
     if supply_deriv
     then with_output_deriv output_name (linear_deriv supervision output) computer
     else computer,
     log).
Proof.
  intros output M Hwf Hcols. subst output M.
  unfold ComputeObjectiveFunction, GetOutput, bind, get, ret.
  rewrite Hcols, Nat.eqb_refl. cbn [negb].
  destruct supervision as [mat|cmat|smat].
  - rewrite TraceMatMat_kTrans_MulElements. by destruct supply_deriv.
  - rewrite TraceMatMat_kTrans_MulElements. by destruct supply_deriv.
  - rewrite (SparseMatrix_Sum_dense smat Hwf), (TraceMatSmat_dense _ smat Hwf).
    rewrite TraceMatMat_kTrans_MulElements.
    destruct supply_deriv; [|done].
    unfold linear_deriv. by rewrite Hcols.
Qed.

Lemma GetMatrix_NumCols (G : GeneralMatrix) :
  NumCols (GetMatrix G) = GeneralMatrix_NumCols G.
Proof.
  destruct G as [mat|cmat|smat]; [done..|].
  rewrite GetMatrix_sparse. destruct smat as [|svec smat]; [done|].
  cbn [map NumCols]. by rewrite length_CopyElementsToVec, length_replicate.
Qed.

(** C4.  For the linear objective, with [M] the matrix the supervision
    represents and an output with as many columns: the weight is the sum of
    the entries of [M], the objective is the sum of the entries of the
    element-wise product of the output and [M], and, when a derivative is
    asked for, exactly one derivative is handed to the computer, which is [M]
    itself when the output has as many rows as the supervision; nothing else
    changes and nothing is logged. *)
Theorem ComputeObjectiveFunction_linear_objective supervision output_name
    supply_deriv computer log :
  let output := outputs computer output_name in
  let M := GetMatrix supervision in
  GeneralMatrix_wf supervision ->
  NumCols output = GeneralMatrix_NumCols supervision ->
  exists output_deriv,
    ComputeObjectiveFunction supervision kLinear output_name supply_deriv
      computer log =
      (Ok (Sum M, Sum (MulElements output M)),
       if supply_deriv
       then with_output_deriv output_name output_deriv computer
       else computer,
       log) /\
    (NumRows output = GeneralMatrix_NumRows supervision -> output_deriv = M).
Proof.
  intros output M Hwf Hcols. exists (linear_deriv supervision output). split.
  - by apply ComputeObjectiveFunction_linear.
  - intros Hrows. by apply linear_deriv_same_shape.
Qed.

(** C5.  For the linear objective, two supervisions that represent the same
    matrix, in whichever of the three encodings, give the same weight and the
    same objective, and the same derivative when the output has as many rows
    as that matrix: the whole result of [ComputeObjectiveFunction] is then
    the same. *)
Theorem ComputeObjectiveFunction_linear_encoding_invariant
    supervision1 supervision2 output_name supply_deriv computer log :
  let output := outputs computer output_name in
  let run supervision :=
    ComputeObjectiveFunction supervision kLinear output_name supply_deriv
      computer log in
  GeneralMatrix_wf supervision1 -> GeneralMatrix_wf supervision2 ->
  GetMatrix supervision1 = GetMatrix supervision2 ->
  NumCols output = NumCols (GetMatrix supervision1) ->
  fst (fst (run supervision1)) = fst (fst (run supervision2)) /\
  (NumRows output = NumRows (GetMatrix supervision1) ->
   run supervision1 = run supervision2).
Proof.
  intros output run Hwf1 Hwf2 Hsame Hcols. subst output run. cbv beta.
  assert (Hcols1 : NumCols (outputs computer output_name) =
                   GeneralMatrix_NumCols supervision1)
    by (by rewrite <- GetMatrix_NumCols).
  assert (Hcols2 : NumCols (outputs computer output_name) =
                   GeneralMatrix_NumCols supervision2)
    by (by rewrite <- GetMatrix_NumCols, <- Hsame).
  rewrite !ComputeObjectiveFunction_linear by done.
  split.
  - cbn. by rewrite Hsame.
  - intros Hrows.
    rewrite !linear_deriv_same_shape; try done.
    + by rewrite Hsame.
    + by rewrite <- GetMatrix_NumRows, <- Hsame.
    + by rewrite <- GetMatrix_NumRows.
Qed.

(** *** The quadratic objective *)

(** The element-wise difference [A - B]. *)
Definition SubMat (A B : Matrix) : Matrix := zip_with (zip_with rsub) A B.

Lemma CopyFromVec_replicate (v : list R) (x : R) :
  CopyFromVec v (replicate (length v) x) = v.
Proof. induction v as [|y v IH]; [done|]. cbn. by rewrite IH. Qed.

Lemma CopyFromMat_replicate (M : Matrix) (cols : nat) (x : R) :
  Forall (fun row => length row = cols) M ->
  CopyFromMat M (replicate (length M) (replicate cols x)) = M.
Proof.
  induction 1 as [|row M Hrow _ IH]; [done|]. cbn.
  by rewrite IH, <- Hrow, CopyFromVec_replicate.
Qed.

Lemma CopyFromGeneralMat_new (G : GeneralMatrix) :
  GeneralMatrix_wf G ->
  CopyFromGeneralMat G
    (CuMatrix_new (GeneralMatrix_NumRows G) (GeneralMatrix_NumCols G)) =
  GetMatrix G.
Proof.
  destruct G as [mat|cmat|smat]; [| |done]; intros Hwf;
    by apply CopyFromMat_replicate.
Qed.

Lemma AddVec_minus_one (v this : list R) :
  length this = length v ->
  AddVec (ropp r1) v this = zip_with rsub this v.
Proof.
  revert v. induction this as [|x this IH]; intros [|y v] Hlen; try done.
  cbn. injection Hlen as Hlen. rewrite (IH v Hlen). f_equal. ring.
Qed.

Lemma AddMat_minus_one (M this : Matrix) :
  same_shape this M -> AddMat (ropp r1) M this = SubMat this M.
Proof.
  unfold SubMat. induction 1 as [|row mrow this M Hlen _ IH]; [done|].
  cbn. by rewrite IH, AddVec_minus_one.
Qed.

Lemma square_difference_sym (a b : list R) :
  zip_with rmul (zip_with rsub a b) (zip_with rsub a b) =
  zip_with rmul (zip_with rsub b a) (zip_with rsub b a).
Proof.
  revert b. induction a as [|x a IH]; intros [|y b]; try done.
  cbn. rewrite IH. f_equal. ring.
Qed.

Lemma MulElements_SubMat_sym (A B : Matrix) :
  MulElements (SubMat A B) (SubMat A B) = MulElements (SubMat B A) (SubMat B A).
Proof.
  unfold MulElements, SubMat.
  revert B. induction A as [|a A IH]; intros [|b B]; try done.
  cbn. by rewrite IH, square_difference_sym.
Qed.

Lemma ComputeObjectiveFunction_quadratic supervision output_name supply_deriv
    computer log :
  let output := outputs computer output_name in
  let diff := SubMat (GetMatrix supervision) output in
  GeneralMatrix_wf supervision -> rectangular output ->
  NumRows output = GeneralMatrix_NumRows supervision ->
  NumCols output = GeneralMatrix_NumCols supervision ->
  ComputeObjectiveFunction supervision kQuadratic output_name supply_deriv
    computer log =
    (Ok (of_int (Z.of_nat (GeneralMatrix_NumRows supervision)),
         rmul (ropp rhalf) (Sum (MulElements diff diff))),
     if supply_deriv then with_output_deriv output_name diff computer
     else computer,
     log).
Proof.
  intros output diff Hwf Hrect Hrows Hcols. subst output diff.
  pose proof (supervision_same_shape _ _ Hwf Hrect Hrows Hcols) as Hshape.
  unfold ComputeObjectiveFunction, GetOutput, bind, get, ret.
  rewrite Hcols, Nat.eqb_refl. cbn [negb].
  rewrite (CopyFromGeneralMat_new _ Hwf), (AddMat_minus_one _ _ Hshape).
  rewrite TraceMatMat_kTrans_MulElements.
  assert (Hn : NumRows (SubMat (GetMatrix supervision)
                          (outputs computer output_name)) =
               GeneralMatrix_NumRows supervision).
  { unfold SubMat, NumRows. rewrite length_zip_with.
    apply Forall2_length in Hshape.
    pose proof (GetMatrix_NumRows supervision) as HG. unfold NumRows in HG. lia. }
  rewrite Hn. by destruct supply_deriv.
Qed.

(** C1, amended.  For the quadratic objective, with [M] the matrix the
    supervision represents and an output of the same shape: the derivative
    handed to the computer is the element-wise difference [M - output]
    (supervision minus activation, the derivative of the objective with
    respect to the output); the objective is -0.5 times the sum of the squares
    of the differences, which is the same for either sign of the difference;
    the weight is the number of rows. *)
Theorem ComputeObjectiveFunction_quadratic_objective supervision output_name
    computer log :
  let output := outputs computer output_name in
  let M := GetMatrix supervision in
  let diff := SubMat M output in
  GeneralMatrix_wf supervision -> rectangular output ->
  NumRows output = GeneralMatrix_NumRows supervision ->
  NumCols output = GeneralMatrix_NumCols supervision ->
  ComputeObjectiveFunction supervision kQuadratic output_name true
    computer log =
    (Ok (of_int (Z.of_nat (GeneralMatrix_NumRows supervision)),
         rmul (ropp rhalf) (Sum (MulElements diff diff))),
     with_output_deriv output_name diff computer,
     log) /\
  Sum (MulElements diff diff) =
    Sum (MulElements (SubMat output M) (SubMat output M)).
Proof.
  intros output M diff Hwf Hrect Hrows Hcols. split.
  - by apply (ComputeObjectiveFunction_quadratic supervision output_name true).
  - subst diff. by rewrite MulElements_SubMat_sym.
Qed.

(** *** The weight reported and the weight held *)

(** The frame counts of the phase reports of a log. *)
Definition reported_frames (log : list LogLine) : list R :=
  flat_map (fun line =>
              match line with
              | PhaseStatsLine _ _ _ _ frames => [frames]
              | TotalStatsLine _ _ _ => []
              end) log.

Lemma UpdateStats_calls_weight_inv output_name L calls this log this' log' :
  0 < L -> in_int32 (current_phase this) ->
  Forall (fun call : Z * R * R => 0 <= fst (fst call) <= INT32_MAX) calls ->
  tot_weight this =
    radd (rsum (reported_frames log)) (tot_weight_this_phase this) ->
  UpdateStats_calls output_name L calls this log = (Ok tt, this', log') ->
  tot_weight this' =
    radd (rsum (reported_frames log')) (tot_weight_this_phase this').
Proof.
  intros HL. revert this log.
  induction calls as [|[[c w] o] calls IH]; intros this log Hcur Hcalls Hinv.
  - cbn. unfold ret. by intros [= <- <-].
  - apply Forall_cons in Hcalls as [Hc Hcalls]. cbn [fst] in Hc.
    cbn [UpdateStats_calls]. unfold bind.
    destruct (UpdateStats output_name L c w o this log)
      as [[[[]|e] this1] log1] eqn:Hstep; [|done].
    assert (Hmax : c / L <= INT32_MAX).
    { assert (c / L <= c) by (apply Z.div_le_upper_bound; nia). lia. }
    assert (Hpos : 0 <= c / L) by (apply Z.div_pos; lia).
    apply UpdateStats_returns_inv in Hstep
      as [(Hp & -> & ->)|(Hp & -> & s & e & ->)]; try done.
    + apply IH; try done. cbn. rewrite Hinv. ring.
    + apply IH; try done.
      * cbn. unfold in_int32, INT32_MIN. lia.
      * cbn. unfold reported_frames. rewrite flat_map_app. cbn.
        rewrite rsum_app, rsum_cons, rsum_nil.
        fold (reported_frames log). rewrite Hinv. ring.
Qed.

(** X13.  No weight is lost between the phase reports and the running total:
    after any run of [UpdateStats] calls on a fresh record that returns, the
    total weight is the sum of the frame counts of the phase reports written
    plus the weight of the phase in progress. *)
Theorem UpdateStats_reported_weight_adds_up output_name L calls this' log' :
  0 < L ->
  Forall (fun call : Z * R * R => 0 <= fst (fst call) <= INT32_MAX) calls ->
  UpdateStats_calls output_name L calls ObjectiveFunctionInfo_new [] =
    (Ok tt, this', log') ->
  tot_weight this' =
    radd (rsum (reported_frames log')) (tot_weight_this_phase this').
Proof.
  intros HL Hcalls.
  apply UpdateStats_calls_weight_inv; try done.
  cbn. rewrite rsum_nil. ring.
Qed.


(** *** The derivative handed over *)

Lemma SubMat_same_shape (A B : Matrix) : same_shape A B -> same_shape (SubMat A B) B.
Proof.
  unfold SubMat, same_shape. induction 1 as [|a b A B Hlen _ IH]; cbn.
  - constructor.
  - constructor; [|done]. rewrite length_zip_with. lia.
Qed.

(** X14.  On a supervision and an output of the same shape, for either
    objective, the derivative [ComputeObjectiveFunction] hands to the computer
    has the shape of the output: as many rows, each as long as the output's. *)
Theorem ComputeObjectiveFunction_deriv_has_output_shape supervision ty
    output_name computer log :
  let output := outputs computer output_name in
  GeneralMatrix_wf supervision -> rectangular output ->
  NumRows output = GeneralMatrix_NumRows supervision ->
  NumCols output = GeneralMatrix_NumCols supervision ->
  exists tot output_deriv,
    ComputeObjectiveFunction supervision ty output_name true computer log =
      (Ok tot, with_output_deriv output_name output_deriv computer, log) /\
    same_shape output_deriv output.
Proof.
  intros output Hwf Hrect Hrows Hcols.
  pose proof (supervision_same_shape _ _ Hwf Hrect Hrows Hcols) as Hshape.
  destruct ty.
  - rewrite ComputeObjectiveFunction_linear by done.
    eexists _, _. split; [reflexivity|].
    by rewrite linear_deriv_same_shape.
  - rewrite ComputeObjectiveFunction_quadratic by done.
    eexists _, _. split; [reflexivity|].
    by apply SubMat_same_shape.
Qed.

(** *** Two particular supervisions *)

Lemma zip_with_rsub_diag (a : list R) :
  zip_with rsub a a = map (fun _ => r0) a.
Proof. induction a as [|x a IH]; [done|]. cbn. rewrite IH. f_equal. ring. Qed.

Lemma SubMat_diag (M : Matrix) : SubMat M M = map (map (fun _ => r0)) M.
Proof.
  unfold SubMat. induction M as [|row M IH]; [done|].
  cbn. by rewrite IH, zip_with_rsub_diag.
Qed.

Lemma Sum_squares_of_zeros (M : Matrix) :
  Sum (MulElements (map (map (fun _ => r0)) M) (map (map (fun _ => r0)) M)) = r0.
Proof.
  rewrite Sum_rows. unfold MulElements.
  induction M as [|row M IH]; [done|].
  cbn [map zip_with]. rewrite rsum_cons, IH.
  assert (Hrow : rsum (zip_with rmul (map (fun _ => r0) row)
                         (map (fun _ : R => r0) row)) = r0).
  { induction row as [|x row IHrow]; [done|].
    cbn [map zip_with]. rewrite rsum_cons, IHrow. ring. }
  rewrite Hrow. ring.
Qed.

(** X15.  Quadratic objective, output equal to the matrix the supervision
    represents: the objective is zero, the derivative handed over is the zero
    matrix of that shape, and the weight is the number of rows. *)
Theorem ComputeObjectiveFunction_quadratic_exact_output supervision output_name
    computer log :
  GeneralMatrix_wf supervision ->
  outputs computer output_name = GetMatrix supervision ->
  ComputeObjectiveFunction supervision kQuadratic output_name true
    computer log =
    (Ok (of_int (Z.of_nat (GeneralMatrix_NumRows supervision)), r0),
     with_output_deriv output_name
       (map (map (fun _ => r0)) (GetMatrix supervision)) computer,
     log).
Proof.
  intros Hwf Hout.
  rewrite (ComputeObjectiveFunction_quadratic supervision output_name true);
    rewrite ?Hout.
  - rewrite SubMat_diag, Sum_squares_of_zeros.
    replace (rmul (ropp rhalf) r0) with r0 by ring. reflexivity.
  - done.
  - unfold rectangular. rewrite GetMatrix_NumCols. by apply GetMatrix_row_lengths.
  - apply GetMatrix_NumRows.
  - apply GetMatrix_NumCols.
Qed.

(** X16.  Linear objective, a supervision that represents a single row with
    the one entry [w] at column [j] and zeros elsewhere (a one-hot target of
    weight [w]), in any encoding: the weight is [w], the objective is the
    output's entry at column [j] times [w], and the derivative handed over is
    that row. *)
Theorem ComputeObjectiveFunction_linear_one_hot supervision output_name
    computer log (cols j : nat) (w : R) (output_row : list R) :
  GeneralMatrix_wf supervision ->
  GetMatrix supervision = [<[j := w]> (replicate cols r0)] ->
  outputs computer output_name = [output_row] ->
  length output_row = cols -> (j < cols)%nat ->
  ComputeObjectiveFunction supervision kLinear output_name true computer log =
    (Ok (w, rmul (default r0 (output_row !! j)) w),
     with_output_deriv output_name [<[j := w]> (replicate cols r0)] computer,
     log).
Proof.
  intros Hwf HM Hout Hlen Hj.
  assert (Hrows : GeneralMatrix_NumRows supervision = 1%nat).
  { by rewrite <- GetMatrix_NumRows, HM. }
  assert (Hcols : GeneralMatrix_NumCols supervision = cols).
  { rewrite <- GetMatrix_NumCols, HM. cbn.
    by rewrite length_insert, length_replicate. }
  assert (Hzero : replicate cols r0 !! j = Some r0)
    by (by apply lookup_replicate_2).
  rewrite ComputeObjectiveFunction_linear; rewrite ?Hout; try done.
  2:{ cbn. congruence. }
  rewrite linear_deriv_same_shape, HM by (cbn; congruence).
  rewrite !Sum_rows. unfold MulElements. cbn [zip_with map].
  rewrite !rsum_cons, !rsum_nil.
  rewrite rsum_insert_zero by done. rewrite rsum_replicate_zero.
  fold (VecVec output_row (<[j:=w]> (replicate cols r0))).
  rewrite VecVec_insert_zero by done. rewrite VecVec_replicate_zero.
  replace (radd (radd r0 w) r0) with w by ring.
  replace (radd (radd r0 (rmul (default r0 (output_row !! j)) w)) r0)
    with (rmul (default r0 (output_row !! j)) w) by ring.
  reflexivity.
Qed.


End Exact.

End Model.

(** * Exact rational arithmetic

    The rationals in canonical form are an instance of the scalars that
    satisfies [BaseFloatLaws]; the concrete runs below use it. *)

#[export] Instance Qc_ops : BaseFloatOps Qc := {|
  r0 := Q2Qc 0;
  r1 := Q2Qc 1;
  radd := Qcplus;
  rsub := Qcminus;
  rmul := Qcmult;
  rdiv := Qcdiv;
  ropp := Qcopp;
  rhalf := Q2Qc (1 # 2);
  of_int := fun z => Q2Qc (inject_Z z);
  rnez := fun x => negb (Qeq_bool x 0)
|}.

Lemma Qc_laws : BaseFloatLaws Qc.
Proof.
  split.
  - exact Qcrt.
  - intros x. cbn. rewrite negb_true_iff. split.
    + intros Hx ->. discriminate Hx.
    + intros Hx. apply not_true_is_false. intros Heq. apply Hx.
      apply Qc_is_canon. by apply Qeq_bool_iff.
Qed.
#[export] Existing Instance Qc_laws.

(** A decoder for a compressed encoding that holds the matrix itself. *)
Definition stored : Matrix (R := Qc) -> Matrix (R := Qc) := fun M => M.

Definition q (n : Z) : Qc := Q2Qc (inject_Z n).

(** ** Concrete runs *)

(** A network with the input node "input" and the output nodes "output"
    (linear objective) and "output2" (quadratic objective). *)
Definition example_nnet : Nnet :=
  {| GetNodeIndex := fun n =>
       if String.eqb n "input" then 0
       else if String.eqb n "output" then 1
       else if String.eqb n "output2" then 2 else -1;
     IsOutputNode := fun i => 1 <=? i;
     objective_type := fun i => if i =? 1 then kLinear else kQuadratic |}.

(** Every output of the forward pass is the 1 x 2 matrix [1 2]. *)
Definition example_computer : NnetComputer (R := Qc) :=
  {| outputs := fun _ => [[q 1; q 2]]; output_derivs := [] |}.

Definition example_sparse : SparseMatrix (R := Qc) :=
  [{| dim_ := 2; pairs_ := [(1%nat, q 1)] |}].

Definition example_eg : NnetExample (R := Qc) (CompressedMatrix := Matrix (R := Qc)) :=
  {| io := [ {| name := "input"; features := kFullMatrix [[q 5]] |};
             {| name := "output"; features := kSparseMatrix example_sparse |};
             {| name := "output2"; features := kFullMatrix [[q 0; q 0]] |} ] |}.

Definition example_trainer (counter : Z) : NnetTrainer (R := Qc) :=
  set_num_minibatches_processed counter
    (NnetTrainer_new NnetTrainerOptions_new example_nnet).

Definition example_run :
    Result unit * (NnetTrainer * NnetComputer) * list LogLine :=
  ProcessOutputs (q 0) stored example_eg (example_trainer 0, example_computer) [].

Lemma returned_eta {S1 S2 L : Type} (x : Result unit * (S1 * S2) * L) :
  fst (fst x) = Ok tt ->
  x = (Ok tt, (fst (snd (fst x)), snd (snd (fst x))), snd x).
Proof. destruct x as [[r [s1 s2]] l]. cbn. by intros ->. Defined.

Lemma example_run_returns : fst (fst example_run) = Ok tt.
Proof. vm_compute. reflexivity. Qed.

(** One stream, phase length 2, five minibatches: the reports of phases 0 and
    1 are written, minibatch 4 only counts in the totals. *)
Definition example_stats : list (Qc * Qc) :=
  [(q 1, q 1); (q 1, q 2); (q 1, q 3); (q 1, q 4); (q 1, q 5)].

Lemma UpdateStats_phase_reports_witness :
  feed_minibatches "output" 2 0 example_stats ObjectiveFunctionInfo_new [] =
    (Ok tt, info_after 2 example_stats,
     [phase_report "output" 2 example_stats 0;
      phase_report "output" 2 example_stats 1]).
Proof.
  refine (proj2 (proj2 (UpdateStats_phase_reports (R := Qc) "output" 2 _ _))
            example_stats [] _).
  - lia.
  - unfold INT32_MAX. lia.
  - cbn. lia.
Defined.

(** The end-to-end scenario of the specification: 250 minibatches at phase
    length 100 give exactly two phase reports, for minibatches 0-99 and
    100-199, and leave the record in phase 2. *)
Example two_reports_in_250_minibatches :
  let stats := replicate 250 (q 1, q (-3)) in
  exists info average0 frames0 average1 frames1,
    feed_minibatches "output" 100 0 stats ObjectiveFunctionInfo_new [] =
      (Ok tt, info,
       [PhaseStatsLine "output" 0 99 average0 frames0;
        PhaseStatsLine "output" 100 199 average1 frames1]) /\
    current_phase info = 2.
Proof.
  intros stats. eexists _, _, _, _, _. split.
  - refine (feed_minibatches_from_start (R := Qc) "output" 100 stats [] _ _ _).
    + lia.
    + unfold INT32_MAX. lia.
    + cbn. lia.
  - reflexivity.
Qed.

Lemma UpdateStats_fatal_on_phase_jump_witness :
  UpdateStats "output" 100 250 (q 1) (q 1) ObjectiveFunctionInfo_new [] =
    (Fatal (AssertPhase 2 0), ObjectiveFunctionInfo_new, []).
Proof.
  refine (UpdateStats_fatal_on_phase_jump (R := Qc) "output" 100 250 (q 1) (q 1)
            ObjectiveFunctionInfo_new [] _ _ _ _ _ _).
  - lia.
  - unfold in_int32, INT32_MIN, INT32_MAX. lia.
  - unfold in_int32, INT32_MIN, INT32_MAX. cbn. lia.
  - left. lia.
  - vm_compute. discriminate.
  - vm_compute. discriminate.
Defined.

Lemma ProcessOutputs_counts_output_streams_witness :
  length (io example_eg) = 3%nat /\
  num_minibatches_processed_ (fst (snd (fst example_run))) = 2.
Proof.
  split; [reflexivity|].
  refine (proj1 (ProcessOutputs_counts_output_streams (q 0) stored example_eg
                   (example_trainer 0) example_computer [] _ _ _ _ _
                   (returned_eta example_run example_run_returns))).
  - unfold in_int32, INT32_MIN, INT32_MAX. cbn. lia.
  - vm_compute. discriminate.
Defined.

Lemma ProcessOutputs_new_stream_needs_early_counter_witness :
  exists st,
    ProcessOutputs_body (q 0) stored
      {| name := "output"; features := kSparseMatrix example_sparse |}
      (example_trainer 200, example_computer) [] =
    (Fatal (AssertPhase 2 0), st, []).
Proof.
  refine (proj1 (ProcessOutputs_new_stream_needs_early_counter (q 0) stored
                   {| name := "output"; features := kSparseMatrix example_sparse |}
                   (example_trainer 200) example_computer [] _ _ _ _ _ _) _).
  - cbn. lia.
  - reflexivity.
  - reflexivity.
  - reflexivity.
  - cbn. lia.
  - unfold INT32_MAX. cbn. lia.
  - cbn. lia.
Defined.

(** A 1 x 2 output against a 2 x 2 supervision: the column counts agree, the
    row counts do not, and the function returns. *)
Example mismatched_rows_are_not_rejected :
  exists tot computer',
    ComputeObjectiveFunction (q 0) stored
      (kFullMatrix [[q 0; q 0]; [q 1; q 1]]) kQuadratic "output" true
      example_computer [] = (Ok tot, computer', []).
Proof. apply ComputeObjectiveFunction_dim_match. reflexivity. Qed.

(** Two streams, each with a total weight that is not zero. *)
Definition example_two_streams : NnetTrainer (R := Qc) :=
  {| config_ := NnetTrainerOptions_new; nnet_ := example_nnet;
     num_minibatches_processed_ := 2;
     objf_info_ :=
       <["output" := {| current_phase := 0; tot_weight := q 1; tot_objf := q (-2);
                        tot_weight_this_phase := q 1;
                        tot_objf_this_phase := q (-2) |}]>
       (<["output2" := {| current_phase := 0; tot_weight := q 3; tot_objf := q (-1);
                          tot_weight_this_phase := q 3;
                          tot_objf_this_phase := q (-1) |}]> ∅) |}.

Lemma NnetTrainer_PrintTotalStats_stops_at_first_nonzero_witness :
  size (objf_info_ example_two_streams) = 2%nat /\
  exists line,
    NnetTrainer_PrintTotalStats example_two_streams [] =
      (Ok true, example_two_streams, [line]).
Proof.
  split; [by vm_compute|].
  refine (NnetTrainer_PrintTotalStats_stops_at_first_nonzero
            example_two_streams [] _ _).
  - apply map_Forall_insert_2; [by vm_compute|].
    apply map_Forall_insert_2; [by vm_compute|].
    apply map_Forall_empty.
  - vm_compute. lia.
Defined.

Lemma PrintTotalStats_true_iff_nonzero_weight_witness :
  (exists b,
     ObjectiveFunctionInfo_PrintTotalStats "output" ObjectiveFunctionInfo_new [] =
       (Ok b, ObjectiveFunctionInfo_new,
        [TotalStatsLine "output" (rdiv r0 r0) (r0 : Qc)]) /\
     (b = true <-> (r0 : Qc) <> r0)) /\
  (exists b log',
     NnetTrainer_PrintTotalStats example_two_streams [] =
       (Ok b, example_two_streams, log') /\
     (b = true <->
      exists name info,
        objf_info_ example_two_streams !! name = Some info /\
        tot_weight info <> r0)).
Proof.
  split.
  - exact (proj1 (PrintTotalStats_true_iff_nonzero_weight (R := Qc))
             "output" ObjectiveFunctionInfo_new []).
  - exact (proj2 (PrintTotalStats_true_iff_nonzero_weight (R := Qc))
             example_two_streams []).
Defined.

Lemma example_sparse_wf : GeneralMatrix_wf stored (kSparseMatrix example_sparse).
Proof.
  repeat constructor; cbn. apply not_elem_of_nil.
Defined.

Lemma ComputeObjectiveFunction_linear_objective_witness :
  exists output_deriv,
    ComputeObjectiveFunction (q 0) stored (kSparseMatrix example_sparse) kLinear
      "output" true example_computer [] =
      (Ok (Sum [[r0; q 1]], Sum (MulElements [[q 1; q 2]] [[r0; q 1]])),
       with_output_deriv "output" output_deriv example_computer, []) /\
    (1%nat = 1%nat -> output_deriv = [[r0; q 1]]).
Proof.
  refine (ComputeObjectiveFunction_linear_objective (q 0) stored
            (kSparseMatrix example_sparse) "output" true example_computer []
            example_sparse_wf _); reflexivity.
Defined.

Lemma ComputeObjectiveFunction_linear_encoding_invariant_witness :
  ComputeObjectiveFunction (q 0) stored (kSparseMatrix example_sparse) kLinear
    "output" true example_computer [] =
  ComputeObjectiveFunction (q 0) stored (kCompressedMatrix [[r0; q 1]]) kLinear
    "output" true example_computer [] /\
  ComputeObjectiveFunction (q 0) stored (kSparseMatrix example_sparse) kLinear
    "output" true example_computer [] =
  ComputeObjectiveFunction (q 0) stored (kFullMatrix [[r0; q 1]]) kLinear
    "output" true example_computer [].
Proof.
  split.
  - refine (proj2 (ComputeObjectiveFunction_linear_encoding_invariant (q 0)
              stored (kSparseMatrix example_sparse)
              (kCompressedMatrix [[r0; q 1]])
              "output" true example_computer [] example_sparse_wf _ _ _) _);
      try reflexivity.
    repeat constructor.
  - refine (proj2 (ComputeObjectiveFunction_linear_encoding_invariant (q 0)
              stored (kSparseMatrix example_sparse) (kFullMatrix [[r0; q 1]])
              "output" true example_computer [] example_sparse_wf _ _ _) _);
      try reflexivity.
    repeat constructor.
Defined.

Lemma ComputeObjectiveFunction_quadratic_objective_witness :
  ComputeObjectiveFunction (q 0) stored (kFullMatrix [[q 0; q 0]]) kQuadratic
    "output2" true example_computer [] =
    (Ok (of_int 1,
         rmul (ropp rhalf)
           (Sum (MulElements (SubMat [[q 0; q 0]] [[q 1; q 2]])
                             (SubMat [[q 0; q 0]] [[q 1; q 2]])))),
     with_output_deriv "output2" (SubMat [[q 0; q 0]] [[q 1; q 2]])
       example_computer,
     []).
Proof.
  refine (proj1 (ComputeObjectiveFunction_quadratic_objective (q 0) stored
                   (kFullMatrix [[q 0; q 0]]) "output2" example_computer []
                   _ _ _ _)); try reflexivity; repeat constructor.
Defined.

(** C1, as stated, fails: for the output [1] and the supervision [0] the
    derivative handed to the computer is not [output - supervision]. *)
Lemma quadratic_deriv_is_not_output_minus_supervision :
  output_derivs
    (snd (fst (ComputeObjectiveFunction (q 0) stored (kFullMatrix [[q 0]])
                 kQuadratic "output" true
                 {| outputs := fun _ => [[q 1]]; output_derivs := [] |} [])))
  <> [("output", SubMat [[q 1]] [[q 0]])].
Proof.
  intros H.
  apply (f_equal (fun l : list (string * Matrix (R := Qc)) =>
                    match l with
                    | [(_, [[x]])] => this x
                    | _ => 0%Q
                    end)) in H.
  vm_compute in H. discriminate H.
Qed.

(** ** Concrete runs of the further properties *)

Lemma returned_eta3 {S L : Type} (x : Result unit * S * L) :
  fst (fst x) = Ok tt -> x = (Ok tt, snd (fst x), snd x).
Proof. destruct x as [[r s] l]. cbn. by intros ->. Defined.

(** Minibatches 0, 1, 2 and 3 with phase length 2, then minibatch 4. *)
Definition example_calls : list (Z * Qc * Qc) :=
  [(0, q 1, q (-1)); (1, q 2, q (-2)); (2, q 1, q (-3)); (3, q 1, q (-1));
   (4, q 3, q (-2))].

Definition example_calls_run :
    Result unit * ObjectiveFunctionInfo * list LogLine :=
  UpdateStats_calls "output" 2 example_calls ObjectiveFunctionInfo_new [].

Lemma example_calls_run_returns : fst (fst example_calls_run) = Ok tt.
Proof. vm_compute. reflexivity. Qed.

Lemma example_calls_in_range :
  Forall (fun call : Z * Qc * Qc => 0 <= fst (fst call) <= INT32_MAX)
    example_calls.
Proof. repeat constructor; cbn; unfold INT32_MAX; lia. Defined.

Lemma UpdateStats_totals_accumulate_across_phases_witness :
  tot_weight (snd (fst example_calls_run)) =
    radd (radd (radd (radd (radd r0 (q 1)) (q 2)) (q 1)) (q 1)) (q 3) /\
  tot_objf (snd (fst example_calls_run)) =
    radd (radd (radd (radd (radd r0 (q (-1))) (q (-2))) (q (-3))) (q (-1)))
      (q (-2)).
Proof.
  refine (UpdateStats_totals_accumulate_across_phases "output" 2 example_calls
            ObjectiveFunctionInfo_new [] _ _ _ _ _
            (returned_eta3 example_calls_run example_calls_run_returns)).
  - lia.
  - unfold in_int32, INT32_MIN, INT32_MAX. cbn. lia.
  - exact example_calls_in_range.
Defined.

Lemma UpdateStats_one_report_per_phase_advanced_witness :
  0 <= current_phase (snd (fst example_calls_run)) /\
  Z.of_nat (length (snd example_calls_run)) =
    0 + (current_phase (snd (fst example_calls_run)) - 0).
Proof.
  refine (UpdateStats_one_report_per_phase_advanced "output" 2 example_calls
            ObjectiveFunctionInfo_new [] _ _ _ _ _
            (returned_eta3 example_calls_run example_calls_run_returns)).
  - lia.
  - unfold in_int32, INT32_MIN, INT32_MAX. cbn. lia.
  - exact example_calls_in_range.
Defined.

Lemma UpdateStats_reported_weight_adds_up_witness :
  tot_weight (snd (fst example_calls_run)) =
    radd (rsum (reported_frames (snd example_calls_run)))
         (tot_weight_this_phase (snd (fst example_calls_run))).
Proof.
  refine (UpdateStats_reported_weight_adds_up "output" 2 example_calls _ _ _ _
            (returned_eta3 example_calls_run example_calls_run_returns)).
  - lia.
  - exact example_calls_in_range.
Defined.

Lemma example_eg_known :
  Forall (fun io => 0 <= GetNodeIndex (nnet_ (example_trainer 0)) (name io))
    (io example_eg).
Proof. repeat constructor; cbn; lia. Defined.

Lemma ProcessOutputs_skips_other_streams_witness :
  ProcessOutputs (q 0) stored example_eg (example_trainer 0, example_computer) [] =
  ProcessOutputs (q 0) stored
    {| io := [ {| name := "output"; features := kSparseMatrix example_sparse |};
               {| name := "output2"; features := kFullMatrix [[q 0; q 0]] |} ] |}
    (example_trainer 0, example_computer) [].
Proof.
  exact (proj1 (ProcessOutputs_skips_other_streams (q 0) stored example_eg
                  (example_trainer 0) example_computer [] example_eg_known)).
Defined.

(** An example with a stream the network does not know. *)
Definition example_eg_unknown :
    NnetExample (R := Qc) (CompressedMatrix := Matrix (R := Qc)) :=
  {| io := [ {| name := "output"; features := kSparseMatrix example_sparse |};
             {| name := "ivector"; features := kFullMatrix [[q 5]] |} ] |}.

Lemma ProcessOutputs_unknown_stream_is_fatal_witness :
  exists e st log',
    ProcessOutputs (q 0) stored example_eg_unknown
      (example_trainer 0, example_computer) [] = (Fatal e, st, log').
Proof.
  refine (ProcessOutputs_unknown_stream_is_fatal (q 0) stored example_eg_unknown
            (example_trainer 0) example_computer [] _).
  apply Exists_cons_tl, Exists_cons_hd. cbn. lia.
Defined.

Lemma ProcessOutputs_streams_independent_witness :
  nnet_ (fst (snd (fst example_run))) = example_nnet /\
  config_ (fst (snd (fst example_run))) = NnetTrainerOptions_new /\
  (forall n, is_Some (objf_info_ (example_trainer 0) !! n) ->
             is_Some (objf_info_ (fst (snd (fst example_run))) !! n)) /\
  (forall n,
     n ∉ ["output"; "output2"] ->
     objf_info_ (fst (snd (fst example_run))) !! n =
       objf_info_ (example_trainer 0) !! n).
Proof.
  exact (ProcessOutputs_streams_independent (q 0) stored example_eg
           (example_trainer 0) example_computer [] _ _ _ _
           (returned_eta example_run example_run_returns)).
Defined.

Lemma ProcessOutputs_one_deriv_per_output_stream_witness :
  outputs (snd (snd (fst example_run))) = outputs example_computer /\
  (exists derivs,
     output_derivs (snd (snd (fst example_run))) = [] ++ derivs /\
     map fst derivs = ["output"; "output2"]) /\
  (forall n, n ∈ ["output"; "output2"] ->
             is_Some (objf_info_ (fst (snd (fst example_run))) !! n)).
Proof.
  exact (ProcessOutputs_one_deriv_per_output_stream (q 0) stored example_eg
           (example_trainer 0) example_computer [] _ _ _
           (returned_eta example_run example_run_returns)).
Defined.

(** Two streams that were seen with weight zero only. *)
Definition example_zero_weight_streams : NnetTrainer (R := Qc) :=
  {| config_ := NnetTrainerOptions_new; nnet_ := example_nnet;
     num_minibatches_processed_ := 2;
     objf_info_ :=
       <["output" := accumulate (q 0) (q 0) ObjectiveFunctionInfo_new]>
       (<["output2" := accumulate (q 0) (q 0) ObjectiveFunctionInfo_new]> ∅) |}.

Lemma NnetTrainer_PrintTotalStats_all_zero_witness :
  NnetTrainer_PrintTotalStats example_zero_weight_streams [] =
    (Ok false, example_zero_weight_streams,
     [] ++ map summary_line
             (map_to_list (objf_info_ example_zero_weight_streams))) /\
  length (map summary_line
            (map_to_list (objf_info_ example_zero_weight_streams))) =
    size (objf_info_ example_zero_weight_streams).
Proof.
  refine (NnetTrainer_PrintTotalStats_all_zero example_zero_weight_streams [] _).
  apply map_Forall_insert_2; [by vm_compute|].
  apply map_Forall_insert_2; [by vm_compute|].
  apply map_Forall_empty.
Defined.


(** A forward pass whose every output is the 1 x 2 matrix [1 2], and three
    examples with the input "input" and the output "output". *)
Definition example_forward :
    Nnet -> NnetExample (R := Qc) (CompressedMatrix := Matrix (R := Qc)) ->
    bool -> bool -> string -> Matrix (R := Qc) :=
  fun _ _ _ _ _ => [[q 1; q 2]].








Lemma ComputeObjectiveFunction_deriv_has_output_shape_witness :
  exists tot output_deriv,
    ComputeObjectiveFunction (q 0) stored (kSparseMatrix example_sparse)
      kQuadratic "output" true example_computer [] =
      (Ok tot, with_output_deriv "output" output_deriv example_computer, []) /\
    same_shape output_deriv [[q 1; q 2]].
Proof.
  refine (ComputeObjectiveFunction_deriv_has_output_shape (q 0) stored
            (kSparseMatrix example_sparse) kQuadratic "output" example_computer
            [] example_sparse_wf _ _ _); try reflexivity.
  repeat constructor.
Defined.

Lemma ComputeObjectiveFunction_quadratic_exact_output_witness :
  ComputeObjectiveFunction (q 0) stored (kFullMatrix [[q 1; q 2]]) kQuadratic
    "output" true example_computer [] =
    (Ok (of_int 1, r0),
     with_output_deriv "output" [[r0; r0]] example_computer, []).
Proof.
  refine (ComputeObjectiveFunction_quadratic_exact_output (q 0) stored
            (kFullMatrix [[q 1; q 2]]) "output" example_computer [] _ _).
  - repeat constructor.
  - reflexivity.
Defined.

Lemma ComputeObjectiveFunction_linear_one_hot_witness :
  ComputeObjectiveFunction (q 0) stored (kSparseMatrix example_sparse) kLinear
    "output" true example_computer [] =
    (Ok (q 1, rmul (q 2) (q 1)),
     with_output_deriv "output" [[r0; q 1]] example_computer, []).
Proof.
  refine (ComputeObjectiveFunction_linear_one_hot (q 0) stored
            (kSparseMatrix example_sparse) "output" example_computer []
            2 1 (q 1) [q 1; q 2] example_sparse_wf _ _ _ _);
    try reflexivity.
  lia.
Defined.



(** A supervision with three columns for an output with two. *)
Definition example_three_columns : NnetIo (R := Qc) (CompressedMatrix := Matrix (R := Qc)) :=
  {| name := "output";
     features := kSparseMatrix [{| dim_ := 3; pairs_ := [(2%nat, q 1)] |}] |}.

Lemma Train_dim_mismatch_witness :
  Train (q 0) stored example_forward
    {| io := [ {| name := "input"; features := kFullMatrix [[q 5]] |};
               example_three_columns ] |}
    (example_trainer 7) [] =
    (Fatal (ErrDimMismatch "output" 2 3), example_trainer 7, []).
Proof.
  refine (Train_dim_mismatch (q 0) stored example_forward _
            example_three_columns (example_trainer 7) [] _ _ _).
  - repeat constructor; cbn; lia.
  - reflexivity.
  - cbn. lia.
Defined.



Lemma UpdateStats_first_call_in_phase_one_witness :
  UpdateStats "output2" 100 150 (q 1) (q (-2)) ObjectiveFunctionInfo_new [] =
    (Ok tt,
     {| current_phase := 1;
        tot_weight := radd r0 (q 1); tot_objf := radd r0 (q (-2));
        tot_weight_this_phase := radd r0 (q 1);
        tot_objf_this_phase := radd r0 (q (-2)) |},
     [PhaseStatsLine "output2" 0 99 (rdiv r0 r0) r0]).
Proof.
  refine (UpdateStats_first_call_in_phase_one (R := Qc) "output2" 100 150
            (q 1) (q (-2)) [] _ _ _).
  - lia.
  - lia.
  - unfold INT32_MAX. lia.
Defined.
